(** * Web-Portal: the client-side behaviour layer of [src/js/main.js]

    A shallow embedding of the script and the properties proved about it.
    The script has three parts, and so has this development:

    - [CONFIG], a nested object literal, partly frozen;
    - [Utils], helper functions ([sanitizeInput], [isValidUrl], [debounce],
      [safeQuerySelector], [safeQuerySelectorAll]);
    - [App], the event handlers ([handleCardClick], [updateHeaderVisibility],
      [updateScrollIndicator], [initializeNavigation], [initializeCards],
      [initializeIntersectionObserver], [cleanup], ...).

    JavaScript values are an inductive type, objects carry the flag that
    [Object.freeze] sets, the page (document, console, timers, location) is
    an explicit state threaded by a small state-and-exception monad, and
    closures registered as listeners or timer callbacks are constructors
    of a data type that [dispatch] and [runCallback] interpret. *)

From Stdlib Require Import String Ascii List Bool Arith ZArith QArith Lia.
From Stdlib Require Import DecimalString Qminmax SpecFloat.
Import ListNotations.
Close Scope Q_scope.
Open Scope string_scope.
Set Warnings "-register-all".

(* ===================================================================== *)
(** * JavaScript values *)
(* ===================================================================== *)

Module JS.

(** An object literal keeps its own properties in insertion order, an
    array literal its items; [frozen] is the flag [Object.freeze] sets. *)
Inductive value : Type :=
| VUndefined
| VNull
| VBool (b : bool)
| VNum (n : Z)
| VStr (s : string)
| VNative (name : string)
    (* a built-in function or object, such as [Object.prototype.toString] *)
| VObject (frozen : bool) (props : list (string * value))
| VArray (frozen : bool) (items : list value).

(** [typeof v]. *)
Definition typeof (v : value) : string :=
  match v with
  | VUndefined => "undefined"
  | VNull => "object"
  | VBool _ => "boolean"
  | VNum _ => "number"
  | VStr _ => "string"
  | VNative _ => "function"
  | VObject _ _ | VArray _ _ => "object"
  end.

(** ToBoolean: what [if (v)] and [!v] test. *)
Definition truthy (v : value) : bool :=
  match v with
  | VUndefined | VNull => false
  | VBool b => b
  | VNum n => negb (n =? 0)%Z
  | VStr s => negb (s =? "")
  | VNative _ | VObject _ _ | VArray _ _ => true
  end.

(** What a template literal [`${v}`] shows of a value.  The script
    interpolates strings; for the other values the text is the
    platform's, and a marker stands for it here. *)
Definition display (v : value) : string :=
  match v with
  | VUndefined => "undefined"
  | VNull => "null"
  | VBool true => "true"
  | VBool false => "false"
  | VStr s => s
  | VNative name => "[native " ++ name ++ "]"
  | VNum _ => "[number]"
  | VObject _ _ | VArray _ _ => "[object]"
  end.

Fixpoint assoc {A : Type} (k : string) (l : list (string * A)) : option A :=
  match l with
  | [] => None
  | (k', a) :: l' => if k' =? k then Some a else assoc k l'
  end.

Fixpoint assoc_set {A : Type} (k : string) (a : A) (l : list (string * A))
  : list (string * A) :=
  match l with
  | [] => [(k, a)]
  | (k', a') :: l' =>
      if k' =? k then (k, a) :: l' else (k', a') :: assoc_set k a l'
  end.

(** The properties every object literal inherits from [Object.prototype]
    (an unmodified one).  [o[name]] finds them exactly like own
    properties. *)
Definition objectPrototypeNames : list string :=
  [ "constructor"; "toString"; "toLocaleString"; "valueOf";
    "hasOwnProperty"; "isPrototypeOf"; "propertyIsEnumerable";
    "__proto__"; "__defineGetter__"; "__defineSetter__";
    "__lookupGetter__"; "__lookupSetter__" ].

Definition inherited (name : string) : bool :=
  existsb (String.eqb name) objectPrototypeNames.

(** [o[name]] on an object created by a literal: the own property, else
    the one inherited from [Object.prototype], else [undefined]. *)
Definition lookup (props : list (string * value)) (name : string) : value :=
  match assoc name props with
  | Some v => v
  | None => if inherited name then VNative name else VUndefined
  end.

(** The index a property name denotes, if it is a canonical one. *)
Definition index_of_name (name : string) : option nat :=
  match NilEmpty.uint_of_string name with
  | Some d =>
      if NilEmpty.string_of_uint (Nat.to_uint (Nat.of_uint d)) =? name
      then Some (Nat.of_uint d) else None
  | None => None
  end.

(** [v[name]]; [None] is the TypeError of reading a property of
    [undefined] or [null].  Of primitives and built-ins only the absence
    of the script's property names is modelled. *)
Definition get (v : value) (name : string) : option value :=
  match v with
  | VUndefined | VNull => None
  | VObject _ props => Some (lookup props name)
  | VArray _ items =>
      Some (if name =? "length" then VNum (Z.of_nat (length items))
            else match index_of_name name with
                 | Some i => nth i items VUndefined
                 | None => if inherited name then VNative name else VUndefined
                 end)
  | _ => Some VUndefined
  end.

Fixpoint get_path (v : value) (path : list string) : option value :=
  match path with
  | [] => Some v
  | name :: rest =>
      match get v name with
      | Some v' => get_path v' rest
      | None => None
      end
  end.

Fixpoint replace_nth {A : Type} (i : nat) (a : A) (l : list A) : list A :=
  match i, l with
  | _, [] => []
  | O, _ :: l' => a :: l'
  | S i', x :: l' => x :: replace_nth i' a l'
  end.

(** Whether a value is an object or [null]: what the setter of
    [__proto__] takes for a prototype. *)
Definition is_object_or_null (v : value) : bool :=
  match v with
  | VNull | VNative _ | VObject _ _ | VArray _ _ => true
  | VUndefined | VBool _ | VNum _ | VStr _ => false
  end.

(** [o.__proto__ = v].  The name is no property of [o] but an accessor
    inherited from [Object.prototype], and the assignment calls its
    setter: a [v] that is neither an object nor [null] is ignored,
    whatever [o] is, frozen or not; for an object or [null] the setter
    replaces the prototype of [o], which throws when [o] is frozen.  The
    own properties of [o] are as before in every case, and they are what
    [put] shows; an object that is not frozen then inherits from [v], no
    longer as [lookup] says. *)
Definition put_proto (o : value) (v : value) : option value :=
  match o with
  | VUndefined | VNull => None
  | VObject true _ | VArray true _ =>
      if is_object_or_null v then None else Some o
  | _ => Some o
  end.

(** [o[name] = v] in strict mode (the script starts with ['use strict']):
    [None] is the TypeError thrown for a frozen object (its properties
    are read-only and none can be added), for [undefined] and [null], and
    for a primitive.  A write to an array past its end, to its [length]
    or to a built-in is outside what the script's objects need and leaves
    the modelled value as it is. *)
Definition put (o : value) (name : string) (v : value) : option value :=
  if name =? "__proto__" then put_proto o v
  else
    match o with
    | VObject false props => Some (VObject false (assoc_set name v props))
    | VObject true _ => None
    | VArray false items =>
        match index_of_name name with
        | Some i => Some (VArray false (replace_nth i v items))
        | None => Some o
        end
    | VArray true _ => None
    | VNative _ => Some o
    | VUndefined | VNull | VBool _ | VNum _ | VStr _ => None
    end.

(** [root.p1.p2. ... .pn = v] in strict mode, as the root afterwards.
    The objects of a literal are not shared, so mutating the one reached
    by the path is rebuilding the tree around it: a frozen parent does
    not protect the child it refers to.  A path that leaves the literal
    through an inherited name ends in a built-in object, shared by every
    object of the page: the root, which [assign] returns, keeps its own
    properties, but what such an assignment does to the built-in, and
    through it to later look-ups, is not part of a [value].  [own_path]
    tells the paths that stay inside the literal. *)
Fixpoint assign (root : value) (path : list string) (v : value)
  : option value :=
  match path with
  | [] => None
  | [name] => put root name v
  | name :: rest =>
      match root with
      | VObject fr props =>
          match assoc name props with
          | Some child =>
              match assign child rest v with
              | Some child' => Some (VObject fr (assoc_set name child' props))
              | None => None
              end
          | None => if inherited name then Some root else None
          end
      | VArray fr items =>
          match index_of_name name with
          | Some i =>
              if (i <? length items)%nat then
                match assign (nth i items VUndefined) rest v with
                | Some child' => Some (VArray fr (replace_nth i child' items))
                | None => None
                end
              else None
          | None => if inherited name then Some root else None
          end
      | VNative _ => Some root
      | VUndefined | VNull | VBool _ | VNum _ | VStr _ => None
      end
  end.

(** The paths along which an assignment stays inside the literal: every
    name but the last is an own property of the object, or an item of the
    array, it is read from; the last is not [__proto__], and what it is
    assigned on is no built-in. *)
Fixpoint own_path (root : value) (path : list string) : bool :=
  match path with
  | [] => false
  | [name] =>
      match root with
      | VNative _ => false
      | _ => negb (name =? "__proto__")
      end
  | name :: rest =>
      match root with
      | VObject _ props =>
          match assoc name props with
          | Some child => own_path child rest
          | None => false
          end
      | VArray _ items =>
          match index_of_name name with
          | Some i =>
              (i <? length items)%nat && own_path (nth i items VUndefined) rest
          | None => false
          end
      | _ => false
      end
  end.

(** Frozen all the way down. *)
Fixpoint deep_frozen (v : value) : bool :=
  match v with
  | VObject fr props => fr && forallb (fun p => deep_frozen (snd p)) props
  | VArray fr items => fr && forallb deep_frozen items
  | _ => true
  end.

(** [s.endsWith(suffix)] and [s.startsWith(prefix)]. *)
Fixpoint endsWith (s suffix : string) : bool :=
  if s =? suffix then true
  else match s with
       | EmptyString => false
       | String _ s' => endsWith s' suffix
       end.

Definition startsWith (s pre : string) : bool := String.prefix pre s.

(** JavaScript numbers are the values of IEEE 754 binary64: the zeros,
    the infinities, NaN and the finite numbers [m * 2^e], with the
    operations rounding to nearest, ties to even. *)
Definition number : Type := spec_float.

Definition prec : Z := 53.
Definition emax : Z := 1024.

(** [a / b] and [a * b]. *)
Definition div (a b : number) : number := SFdiv prec emax a b.

Definition mul (a b : number) : number := SFmul prec emax a b.

(** [a > b]. *)
Definition gt (a b : number) : bool := SFltb b a.

Definition zero : number := S754_zero false.

Definition is_zero (n : number) : bool :=
  match n with S754_zero _ => true | _ => false end.

(** The number an integer denotes: the integer itself up to [2^53], the
    nearest number beyond. *)
Definition number_of_Z (z : Z) : number := binary_normalize prec emax z 0 false.

(** The number nearest to a rational: the rational itself when it is one
    of the numbers, as the measures the platform reports are. *)
Definition number_of_Q (q : Q) : number :=
  match Qnum q with
  | Z0 => zero
  | Zpos n =>
      SFdiv prec emax (S754_finite false n 0) (S754_finite false (Qden q) 0)
  | Zneg n =>
      SFdiv prec emax (S754_finite true n 0) (S754_finite false (Qden q) 0)
  end.

End JS.
Import JS.

(* ===================================================================== *)
(** * CONFIG *)
(* ===================================================================== *)

Module Config.

(** The literal of lines 4-26.  [Object.freeze] is applied to the outer
    object, to [urls], to [security] and to [allowedDomains]; [selectors],
    [classes] and [animation] are plain literals. *)
Definition CONFIG : value :=
  VObject true
    [ ("urls", VObject true
         [ ("blog", VStr "https://blog.qulluq.com/") ]);
      ("security", VObject true
         [ ("allowedDomains",
             VArray true [ VStr "qulluq.com"; VStr "blog.qulluq.com" ]);
           ("maxRedirectDelay", VNum 1000) ]);
      ("selectors", VObject false
         [ ("loading", VStr "#loading");
           ("scrollIndicator", VStr "#scrollIndicator");
           ("navLinks", VStr ".nav-links a");
           ("navCards", VStr ".nav-card");
           ("header", VStr "header") ]);
      ("classes", VObject false
         [ ("hidden", VStr "hidden") ]);
      ("animation", VObject false
         [ ("loadingDelay", VNum 1000);
           ("navigationDelay", VNum 500) ]) ].

(** The configuration as the handlers read it. *)
Record t : Type := mk {
  urls : list (string * value);
  allowedDomains : list string;
  maxRedirectDelay : Z;
  sel_loading : string;
  sel_scrollIndicator : string;
  sel_navLinks : string;
  sel_navCards : string;
  sel_header : string;
  cls_hidden : string;
  loadingDelay : Z;
  navigationDelay : Z
}.

Definition as_str (v : option value) : option string :=
  match v with Some (VStr s) => Some s | _ => None end.

Definition as_num (v : option value) : option Z :=
  match v with Some (VNum n) => Some n | _ => None end.

Fixpoint as_strs (l : list value) : option (list string) :=
  match l with
  | [] => Some []
  | VStr s :: l' =>
      match as_strs l' with Some r => Some (s :: r) | None => None end
  | _ => None
  end.

(** Reading every value the handlers use off a configuration object. *)
Definition read (c : value) : option t :=
  match get_path c ["urls"], get_path c ["security"; "allowedDomains"] with
  | Some (VObject _ us), Some (VArray _ ds) =>
      match as_strs ds,
            as_num (get_path c ["security"; "maxRedirectDelay"]),
            as_str (get_path c ["selectors"; "loading"]),
            as_str (get_path c ["selectors"; "scrollIndicator"]),
            as_str (get_path c ["selectors"; "navLinks"]) with
      | Some ds', Some mrd, Some s1, Some s2, Some s3 =>
          match as_str (get_path c ["selectors"; "navCards"]),
                as_str (get_path c ["selectors"; "header"]),
                as_str (get_path c ["classes"; "hidden"]),
                as_num (get_path c ["animation"; "loadingDelay"]),
                as_num (get_path c ["animation"; "navigationDelay"]) with
          | Some s4, Some s5, Some h, Some ld, Some nd =>
              Some (mk us ds' mrd s1 s2 s3 s4 s5 h ld nd)
          | _, _, _, _, _ => None
          end
      | _, _, _, _, _ => None
      end
  | _, _ => None
  end.

(** [CONFIG] as the handlers read it while nothing has been assigned. *)
Definition config : t :=
  Eval cbv in
    match read CONFIG with
    | Some c => c
    | None => mk [] [] 0 "" "" "" "" "" "" 0 0
    end.

End Config.
(* ===================================================================== *)
(** * The platform's timers *)
(* ===================================================================== *)

(** [setTimeout] and [clearTimeout] over a virtual clock in milliseconds.
    A timer carries the closure it was given, as a value of type [P]; the
    party that owns [P] says how to run it.  The table is the platform's
    for delays of less than [2^31] milliseconds, the range [max_delay]
    bounds: the platform keeps a delay in 32 bits and does not wait for a
    larger one. *)
Module Timers.

(** The delays [setTimeout] honours are below [max_delay]. *)
Definition max_delay : Z := 2 ^ 31.

Section WithPayload.

Variable P : Type.

Record timer : Type := mkTimer { id : nat; due : nat; payload : P }.

Record t : Type := mk { clock : nat; next_id : nat; pending : list timer }.

(** Handles are positive and never reused. *)
Definition empty : t := mk 0 1 [].

Definition setTimeout (p : P) (delay : nat) (tm : t) : nat * t :=
  (next_id tm,
   mk (clock tm) (S (next_id tm))
      (pending tm ++ [mkTimer (next_id tm) (clock tm + delay) p])).

(** [clearTimeout(h)]; [h] is [None] for [undefined], and a handle
    that is not pending is ignored. *)
Definition clearTimeout (h : option nat) (tm : t) : t :=
  match h with
  | None => tm
  | Some i =>
      mk (clock tm) (next_id tm)
         (filter (fun x => negb (id x =? i)%nat) (pending tm))
  end.

(** The pending timer to fire first among those due by [limit]: the
    earliest, the oldest among equals. *)
Fixpoint earliest (limit : nat) (l : list timer) : option timer :=
  match l with
  | [] => None
  | x :: l' =>
      match earliest limit l' with
      | Some y =>
          if (due x <=? limit)%nat && (due x <=? due y)%nat
          then Some x else Some y
      | None => if (due x <=? limit)%nat then Some x else None
      end
  end.

(** Take the next timer due by [limit] out of the table, the clock
    moving on to its due time if that lies ahead. *)
Definition pop (limit : nat) (tm : t) : option (timer * t) :=
  match earliest limit (pending tm) with
  | Some x =>
      Some (x, mk (Nat.max (clock tm) (due x)) (next_id tm)
                  (filter (fun y => negb (id y =? id x)%nat) (pending tm)))
  | None => None
  end.

Definition set_clock (c : nat) (tm : t) : t :=
  mk c (next_id tm) (pending tm).

End WithPayload.

Arguments mkTimer {P}.
Arguments id {P}.
Arguments due {P}.
Arguments payload {P}.
Arguments mk {P}.
Arguments clock {P}.
Arguments next_id {P}.
Arguments pending {P}.
Arguments empty {P}.
Arguments setTimeout {P}.
Arguments clearTimeout {P}.
Arguments earliest {P}.
Arguments pop {P}.
Arguments set_clock {P}.

End Timers.

(* ===================================================================== *)
(** * Utils.debounce *)
(* ===================================================================== *)

Module Debounce.

Section WithFunc.

(** [func] receives an invocation context ([this]) and its arguments and
    acts on some state of its own. *)
Variables Ctx Args S : Type.
Variable func : Ctx -> Args -> S -> S.
Variable wait : nat.

(** The closure [later] of one invocation: it captures [this] and [args]. *)
Definition closure : Type := (Ctx * Args)%type.

(** One wrapper returned by [debounce(func, wait)]: its variable
    [timeout], the timer table it schedules on, the state [func] acts on
    and, for the record, the applications of [func] so far. *)
Record state : Type := mk {
  timeout : option nat;
  timers : Timers.t closure;
  user : S;
  applied : list (Ctx * Args)
}.

Definition debounce (tm : Timers.t closure) (u : S) : state :=
  mk None tm u [].

(** [executedFunction(...args)], called with [this]:
    [clearTimeout(timeout); timeout = setTimeout(later, wait)]. *)
Definition executedFunction (this : Ctx) (args : Args) (st : state) : state :=
  let tm := Timers.clearTimeout (timeout st) (timers st) in
  let '(h, tm') := Timers.setTimeout (this, args) wait tm in
  mk (Some h) tm' (user st) (applied st).

(** [later()]: [clearTimeout(timeout); func.apply(this, args)]. *)
Definition later (c : closure) (st : state) : state :=
  let tm := Timers.clearTimeout (timeout st) (timers st) in
  mk (timeout st) tm (func (fst c) (snd c) (user st))
     (applied st ++ [c]).

(** The event loop running the timers that fall due by [limit], each at
    its time. *)
Fixpoint fire (fuel : nat) (limit : nat) (st : state) : state :=
  match fuel with
  | O => st
  | Datatypes.S fuel' =>
      match Timers.pop limit (timers st) with
      | Some (x, tm) =>
          fire fuel' limit
               (later (Timers.payload x)
                      (mk (timeout st) tm (user st) (applied st)))
      | None => st
      end
  end.

(** [dt] milliseconds pass with no invocation.  [later] schedules
    nothing, so one round per pending timer runs them all. *)
Definition elapse (dt : nat) (st : state) : state :=
  let limit := Timers.clock (timers st) + dt in
  let st' := fire (length (Timers.pending (timers st))) limit st in
  mk (timeout st') (Timers.set_clock limit (timers st'))
     (user st') (applied st').

(** A burst: a first invocation, then further ones.  Each of these comes
    in the same task as the one before ([None]: the event loop does not
    run in between, and no timer fires, whatever is due), or after a gap
    of so many milliseconds, in which the event loop runs the timers that
    fall due. *)
Definition call : Type := (option nat * (Ctx * Args))%type.

Definition pause (gap : option nat) (st : state) : state :=
  match gap with
  | None => st
  | Some dt => elapse dt st
  end.

Fixpoint burst (rest : list call) (st : state) : state :=
  match rest with
  | [] => st
  | (gap, (this, args)) :: rest' =>
      burst rest' (executedFunction this args (pause gap st))
  end.

(** Whether an invocation belongs to the burst of the one before: it
    comes before the one before has been executed, [wait] after it. *)
Definition in_burst (c : call) : Prop :=
  match fst c with
  | None => True
  | Some dt => (dt < wait)%nat
  end.

Definition last_call (first : Ctx * Args) (rest : list call) : Ctx * Args :=
  snd (last rest (None, first)).

End WithFunc.

Arguments mk {Ctx Args S}.
Arguments timeout {Ctx Args S}.
Arguments timers {Ctx Args S}.
Arguments user {Ctx Args S}.
Arguments applied {Ctx Args S}.
Arguments debounce {Ctx Args S}.
Arguments executedFunction {Ctx Args S}.
Arguments later {Ctx Args S}.
Arguments fire {Ctx Args S}.
Arguments elapse {Ctx Args S}.
Arguments pause {Ctx Args S}.
Arguments burst {Ctx Args S}.
Arguments in_burst {Ctx Args}.
Arguments last_call {Ctx Args}.

End Debounce.

(* ===================================================================== *)
(** * Utils.sanitizeInput *)
(* ===================================================================== *)

(** The fragment of the DOM that [sanitizeInput] touches: a detached
    element and the text nodes below it. *)
Module Dom.

Inductive node : Type :=
| Text (data : string)
| Element (tag : string) (children : list node).

Definition createElement (tag : string) : node := Element tag [].

(** The setter of [textContent]: all children are replaced by one text
    node holding the string as it is, or by none for the empty string. *)
Definition set_textContent (n : node) (s : string) : node :=
  match n with
  | Element tag _ => Element tag (if s =? "" then [] else [Text s])
  | Text _ => Text s
  end.

(** The getter of [textContent]: the data of the text nodes below, in
    document order. *)
Fixpoint textContent (n : node) : string :=
  match n with
  | Text data => data
  | Element _ children =>
      fold_right (fun c acc => textContent c ++ acc) "" children
  end.

(** The getter of [innerHTML], for comparison: the serialisation, in
    which the text of a text node is escaped. *)
Fixpoint escape (s : string) : string :=
  match s with
  | EmptyString => ""
  | String c s' =>
      (if Ascii.eqb c "&" then "&amp;"
       else if Ascii.eqb c "<" then "&lt;"
       else if Ascii.eqb c ">" then "&gt;"
       else String c "") ++ escape s'
  end.

Fixpoint outerHTML (n : node) : string :=
  match n with
  | Text data => escape data
  | Element tag children =>
      "<" ++ tag ++ ">"
      ++ fold_right (fun c acc => outerHTML c ++ acc) "" children
      ++ "</" ++ tag ++ ">"
  end.

Definition innerHTML (n : node) : string :=
  match n with
  | Text data => escape data
  | Element _ children =>
      fold_right (fun c acc => outerHTML c ++ acc) "" children
  end.

(** Whether a string holds a character that starts markup. *)
Fixpoint has_markup (s : string) : bool :=
  match s with
  | EmptyString => false
  | String c s' =>
      Ascii.eqb c "<" || Ascii.eqb c ">" || Ascii.eqb c "&" || has_markup s'
  end.

End Dom.


(* ===================================================================== *)
(** * The page *)
(* ===================================================================== *)

Module Page.

(** Elements are handles. *)
Definition Elem : Type := nat.

Inductive Level : Type := Warn | Error.

Inductive Exn : Type :=
| ReferenceError (what : string)
| DOMException (name : string).

(** The outcome of handing a selector to the document. *)
Inductive Query (A : Type) : Type :=
| Matched (a : A)
| SyntaxError.
Arguments Matched {A}.
Arguments SyntaxError {A}.

Inductive Target : Type := Window | Document | Node (e : Elem).

(** The closures the script registers as event listeners, with the
    variables each one captures. *)
Inductive Handler : Type :=
| OnDOMContentLoaded
| OnLoad
| OnScroll
| OnError
| OnBeforeUnload
| OnNavLinkClick (link : Elem)
| OnCardClick (link : Elem) (section : string)
| OnCardMouseEnter
| OnCardMouseLeave
| OnCardLinkClick (link : Elem) (section : string).

(** The closures the script hands to [setTimeout]. *)
Inductive Callback : Type :=
| HideLoading
| ScrollLater
| Navigate (targetUrl : value) (link : Elem) (originalText : string).

Inductive StyleValue : Type :=
| Css (text : string)
| Percent (n : number).

Record Listener : Type := mkListener {
  on_target : Target;
  on_type : string;
  on_handler : Handler
}.

Record Observer : Type := mkObserver {
  threshold : Q;
  rootMargin : string;
  observed : list Elem;
  connected : bool
}.

Record Event : Type := mkEvent {
  target : Elem;
  error : string;
  defaultPrevented : bool;
  propagationStopped : bool
}.

(** What the script asks of the document and the window, and does not
    change. *)
Record Doc : Type := mkDoc {
  readyState : string;
  querySelector : string -> Query (option Elem);
  querySelectorAll : string -> Query (list Elem);
  (* [card.querySelector('.nav-card-link')] *)
  card_link : Elem -> option Elem;
  (* [card.dataset.section] *)
  dataset_section : Elem -> option string;
  (* [link.getAttribute('href')] *)
  getAttribute_href : Elem -> option string;
  (* [e.target.closest('.nav-card-link')] *)
  closest_card_link : Elem -> option Elem;
  (* [process.env.NODE_ENV]; [None] where no [process] is defined *)
  process_env : option string;
  pageYOffset : Q;
  scrollTop : Q;
  scrollHeight : Z;
  clientHeight : Z;
  (* whether assigning [window.location.href] throws *)
  location_rejects : string -> bool
}.

(** What the script changes: the console, the elements' text, style and
    classes, listeners, timers, the location, opened windows, observers,
    the event object being dispatched, and the state of [App]: its
    properties [lastScrollTop] and [intersectionObserver] (which no
    statement of the script assigns), and the variable [timeout] in the
    closure of [handleScroll]. *)
Record World : Type := mkWorld {
  doc : Doc;
  event : Event;
  console : list (Level * string);
  textContent : Elem -> string;
  style : Elem -> string -> option StyleValue;
  classList : Elem -> list string;
  listeners : list Listener;
  timers : Timers.t Callback;
  location_href : string;
  opened : list (string * string);
  scrolledIntoView : list Elem;
  observers : list Observer;
  lastScrollTop : option Q;
  intersectionObserver : option nat;
  handleScroll_timeout : option nat
}.

Definition set_event (x : Event) (w : World) : World :=
  mkWorld (doc w) x (console w) (textContent w) (style w) (classList w)
          (listeners w) (timers w) (location_href w) (opened w)
          (scrolledIntoView w) (observers w) (lastScrollTop w)
          (intersectionObserver w) (handleScroll_timeout w).
Definition set_console (x : list (Level * string)) (w : World) : World :=
  mkWorld (doc w) (event w) x (textContent w) (style w) (classList w)
          (listeners w) (timers w) (location_href w) (opened w)
          (scrolledIntoView w) (observers w) (lastScrollTop w)
          (intersectionObserver w) (handleScroll_timeout w).
Definition set_textContent (x : Elem -> string) (w : World) : World :=
  mkWorld (doc w) (event w) (console w) x (style w) (classList w)
          (listeners w) (timers w) (location_href w) (opened w)
          (scrolledIntoView w) (observers w) (lastScrollTop w)
          (intersectionObserver w) (handleScroll_timeout w).
Definition set_style (x : Elem -> string -> option StyleValue) (w : World) : World :=
  mkWorld (doc w) (event w) (console w) (textContent w) x (classList w)
          (listeners w) (timers w) (location_href w) (opened w)
          (scrolledIntoView w) (observers w) (lastScrollTop w)
          (intersectionObserver w) (handleScroll_timeout w).
Definition set_classList (x : Elem -> list string) (w : World) : World :=
  mkWorld (doc w) (event w) (console w) (textContent w) (style w) x
          (listeners w) (timers w) (location_href w) (opened w)
          (scrolledIntoView w) (observers w) (lastScrollTop w)
          (intersectionObserver w) (handleScroll_timeout w).
Definition set_listeners (x : list Listener) (w : World) : World :=
  mkWorld (doc w) (event w) (console w) (textContent w) (style w)
          (classList w) x (timers w) (location_href w) (opened w)
          (scrolledIntoView w) (observers w) (lastScrollTop w)
          (intersectionObserver w) (handleScroll_timeout w).
Definition set_timers (x : Timers.t Callback) (w : World) : World :=
  mkWorld (doc w) (event w) (console w) (textContent w) (style w)
          (classList w) (listeners w) x (location_href w) (opened w)
          (scrolledIntoView w) (observers w) (lastScrollTop w)
          (intersectionObserver w) (handleScroll_timeout w).
Definition set_location_href (x : string) (w : World) : World :=
  mkWorld (doc w) (event w) (console w) (textContent w) (style w)
          (classList w) (listeners w) (timers w) x (opened w)
          (scrolledIntoView w) (observers w) (lastScrollTop w)
          (intersectionObserver w) (handleScroll_timeout w).
Definition set_opened (x : list (string * string)) (w : World) : World :=
  mkWorld (doc w) (event w) (console w) (textContent w) (style w)
          (classList w) (listeners w) (timers w) (location_href w) x
          (scrolledIntoView w) (observers w) (lastScrollTop w)
          (intersectionObserver w) (handleScroll_timeout w).
Definition set_scrolledIntoView (x : list Elem) (w : World) : World :=
  mkWorld (doc w) (event w) (console w) (textContent w) (style w)
          (classList w) (listeners w) (timers w) (location_href w)
          (opened w) x (observers w) (lastScrollTop w)
          (intersectionObserver w) (handleScroll_timeout w).
Definition set_observers (x : list Observer) (w : World) : World :=
  mkWorld (doc w) (event w) (console w) (textContent w) (style w)
          (classList w) (listeners w) (timers w) (location_href w)
          (opened w) (scrolledIntoView w) x (lastScrollTop w)
          (intersectionObserver w) (handleScroll_timeout w).
Definition set_lastScrollTop (x : option Q) (w : World) : World :=
  mkWorld (doc w) (event w) (console w) (textContent w) (style w)
          (classList w) (listeners w) (timers w) (location_href w)
          (opened w) (scrolledIntoView w) (observers w) x
          (intersectionObserver w) (handleScroll_timeout w).
Definition set_handleScroll_timeout (x : option nat) (w : World) : World :=
  mkWorld (doc w) (event w) (console w) (textContent w) (style w)
          (classList w) (listeners w) (timers w) (location_href w)
          (opened w) (scrolledIntoView w) (observers w) (lastScrollTop w)
          (intersectionObserver w) x.

(** ** The monad of handlers: state, and exceptions that propagate *)

Inductive Result (A : Type) : Type :=
| Ret (a : A)
| Throw (e : Exn).
Arguments Ret {A}.
Arguments Throw {A}.

Definition M (A : Type) : Type := World -> Result A * World.

Definition ret {A : Type} (a : A) : M A := fun w => (Ret a, w).

Definition bind {A B : Type} (m : M A) (k : A -> M B) : M B :=
  fun w =>
    match m w with
    | (Ret a, w') => k a w'
    | (Throw e, w') => (Throw e, w')
    end.

Definition throw {A : Type} (e : Exn) : M A := fun w => (Throw e, w).

Definition get : M World := fun w => (Ret w, w).

Definition modify (f : World -> World) : M unit := fun w => (Ret tt, f w).

Declare Scope js_scope.
Delimit Scope js_scope with js.
Notation "x <- m ;; k" := (bind m (fun x => k))
  (at level 61, m at next level, right associativity) : js_scope.
Notation "m ;; k" := (bind m (fun _ => k))
  (at level 61, right associativity) : js_scope.
Open Scope js_scope.

(** [list.forEach(f)]. *)
Fixpoint forEach {A : Type} (l : list A) (f : A -> M unit) : M unit :=
  match l with
  | [] => ret tt
  | x :: l' => f x ;; forEach l' f
  end.

(** ** Platform operations *)

Definition console_warn (msg : string) : M unit :=
  modify (fun w => set_console (console w ++ [(Warn, msg)]) w).

Definition console_error (msg : string) : M unit :=
  modify (fun w => set_console (console w ++ [(Error, msg)]) w).

Definition addEventListener (t : Target) (type : string) (h : Handler) : M unit :=
  modify (fun w => set_listeners (listeners w ++ [mkListener t type h]) w).

Definition setStyle (el : Elem) (prop : string) (v : StyleValue) : M unit :=
  modify (fun w =>
    set_style (fun el' prop' =>
                 if (el' =? el)%nat && (prop' =? prop) then Some v
                 else style w el' prop') w).

Definition setTextContent (el : Elem) (s : string) : M unit :=
  modify (fun w =>
    set_textContent (fun el' => if (el' =? el)%nat then s
                                else textContent w el') w).

(** ASCII whitespace, which separates the tokens of a class attribute. *)
Definition is_whitespace (c : ascii) : bool :=
  match nat_of_ascii c with
  | 9 | 10 | 12 | 13 | 32 => true
  | _ => false
  end.

Fixpoint has_whitespace (s : string) : bool :=
  match s with
  | EmptyString => false
  | String c s' => is_whitespace c || has_whitespace s'
  end.

(** [el.classList.add(c)]: a SyntaxError for the empty string, an
    InvalidCharacterError for a string with whitespace in it; any other
    string is a token, added unless the list has it. *)
Definition classList_add (el : Elem) (c : string) : M unit :=
  if c =? "" then throw (DOMException "SyntaxError")
  else if has_whitespace c then throw (DOMException "InvalidCharacterError")
  else
    modify (fun w =>
      set_classList (fun el' =>
                       if (el' =? el)%nat then
                         if existsb (String.eqb c) (classList w el')
                         then classList w el'
                         else (classList w el' ++ [c])%list
                       else classList w el') w).

(** [setTimeout(cb, delay)], for a delay of less than [2^31]
    milliseconds: the platform keeps the delay in 32 bits, and from
    [2^31] on it does not wait. *)
Definition setTimeout (cb : Callback) (delay : Z) : M nat :=
  fun w =>
    let '(h, tm) := Timers.setTimeout cb (Z.to_nat delay) (timers w) in
    (Ret h, set_timers tm w).

Definition clearTimeout (h : option nat) : M unit :=
  modify (fun w => set_timers (Timers.clearTimeout h (timers w)) w).

Definition window_open (url : value) (name : string) : M unit :=
  modify (fun w => set_opened (opened w ++ [(display url, name)]) w).

Definition scrollIntoView (el : Elem) : M unit :=
  modify (fun w => set_scrolledIntoView (scrolledIntoView w ++ [el]) w).

(** [new IntersectionObserver(callback, options)], as its handle. *)
Definition newIntersectionObserver (thr : Q) (margin : string) : M nat :=
  fun w =>
    (Ret (length (observers w)),
     set_observers (observers w ++ [mkObserver thr margin [] true]) w).

Fixpoint update_nth {A : Type} (i : nat) (f : A -> A) (l : list A) : list A :=
  match i, l with
  | _, [] => []
  | O, x :: l' => f x :: l'
  | S i', x :: l' => x :: update_nth i' f l'
  end.

Definition observe (o : nat) (el : Elem) : M unit :=
  modify (fun w =>
    set_observers
      (update_nth o (fun ob =>
         mkObserver (threshold ob) (rootMargin ob)
                    (observed ob ++ [el]) (connected ob))
         (observers w)) w).

Definition disconnect (o : nat) : M unit :=
  modify (fun w =>
    set_observers
      (update_nth o (fun ob =>
         mkObserver (threshold ob) (rootMargin ob) [] false)
         (observers w)) w).

(** [e.preventDefault()] and [e.stopPropagation()] on the event being
    dispatched. *)
Definition preventDefault : M unit :=
  modify (fun w =>
    set_event (mkEvent (target (event w)) (error (event w)) true
                       (propagationStopped (event w))) w).

Definition stopPropagation : M unit :=
  modify (fun w =>
    set_event (mkEvent (target (event w)) (error (event w))
                       (defaultPrevented (event w)) true) w).

End Page.

(* ===================================================================== *)
(** * Utils *)
(* ===================================================================== *)

(** What the script reads of the object [new URL(string)] builds. *)
Record URL : Type := mkURL { protocol : string; hostname : string }.

Module Utils.

(** [sanitizeInput(str)], lines 35-40. *)
Definition sanitizeInput (str : value) : string :=
  match str with
  | VStr s =>
      let div := Dom.createElement "div" in
      let div := Dom.set_textContent div s in
      Dom.textContent div
  | _ => ""
  end.

Section WithURL.

(** The platform's URL parser: [new URL(s)] either yields a URL record
    or throws a TypeError ([None]). *)
Variable URL_new : string -> option URL.

Definition isValidProtocol (url : URL) : bool :=
  (protocol url =? "http:") || (protocol url =? "https:").

Definition isValidDomain (url : URL) (allowedDomains : list string) : bool :=
  existsb (fun domain =>
             (hostname url =? domain)
             || endsWith (hostname url) ("." ++ domain))
          allowedDomains.

(** [isValidUrl(string, allowedDomains = [])].  The [try] block turns
    the parser's TypeError into [false]. *)
Definition isValidUrl (str : value) (allowedDomains : list string) : bool :=
  match str with
  | VStr s =>
      match URL_new s with
      | Some url =>
          if (0 <? length allowedDomains)%nat
          then isValidProtocol url && isValidDomain url allowedDomains
          else isValidProtocol url
      | None => false
      end
  | _ => false
  end.

End WithURL.

Import Page.

(** [safeQuerySelector(selector)], lines 90-101.  The [catch] block reads
    [process.env.NODE_ENV], which throws a ReferenceError of its own
    where the page defines no [process]. *)
Definition safeQuerySelector (selector : string) : M (option Elem) :=
  w <- get ;;
  match querySelector (doc w) selector with
  | Matched r => ret r
  | SyntaxError =>
      match process_env (doc w) with
      | None => throw (ReferenceError "process")
      | Some env =>
          (if env =? "development"
           then console_error ("Invalid selector: " ++ selector)
           else console_error "Selector error occurred") ;;
          ret None
      end
  end.

(** [safeQuerySelectorAll(selector)], lines 108-115. *)
Definition safeQuerySelectorAll (selector : string) : M (list Elem) :=
  w <- get ;;
  match querySelectorAll (doc w) selector with
  | Matched l => ret l
  | SyntaxError =>
      console_error ("Invalid selector: " ++ selector) ;;
      ret []
  end.

End Utils.

(* ===================================================================== *)
(** * App *)
(* ===================================================================== *)

Module App.

Import Page Utils.

Section WithPlatform.

Variable URL_new : string -> option URL.

(** The configuration the handlers read: [Config.config] as long as
    nothing has been assigned into [CONFIG]. *)
Variable CONFIG : Config.t.

(** [this.lastScrollTop], [undefined] until first set. *)
Definition falsy_offset (o : option Q) : bool :=
  match o with
  | None => true
  | Some q => Qeq_bool q 0
  end.

(** [handleWindowLoad()], lines 154-161, and its timer callback. *)
Definition handleWindowLoad : M unit :=
  _ <- setTimeout HideLoading (Config.loadingDelay CONFIG) ;;
  ret tt.

Definition hideLoading : M unit :=
  loadingElement <- safeQuerySelector (Config.sel_loading CONFIG) ;;
  match loadingElement with
  | Some el => classList_add el (Config.cls_hidden CONFIG)
  | None => ret tt
  end.

(** The progress of lines 203-206:
    [scrollHeight > 0 ? (scrollTop / scrollHeight) * 100 : 0], where
    [scrollHeight] is the document's [scrollHeight - clientHeight].  The
    two heights are integers of 32 bits, whose difference is exact; the
    comparison, the division and the multiplication are those of
    numbers. *)
Definition scrollPercent (scrollTop : Q) (scrollHeight clientHeight : Z)
  : number :=
  let scrollTop := number_of_Q scrollTop in
  let scrollHeight := number_of_Z (scrollHeight - clientHeight) in
  if gt scrollHeight zero
  then mul (div scrollTop scrollHeight) (number_of_Z 100)
  else zero.

(** [updateScrollIndicator()], lines 200-209. *)
Definition updateScrollIndicator : M unit :=
  scrollIndicator <- safeQuerySelector (Config.sel_scrollIndicator CONFIG) ;;
  match scrollIndicator with
  | None => ret tt
  | Some el =>
      w <- get ;;
      setStyle el "width"
               (Percent (scrollPercent (scrollTop (doc w))
                                       (scrollHeight (doc w))
                                       (clientHeight (doc w))))
  end.

(** [window.pageYOffset || document.documentElement.scrollTop]. *)
Definition currentOffset (d : Doc) : Q :=
  if Qeq_bool (pageYOffset d) 0 then scrollTop d else pageYOffset d.

(** [updateHeaderVisibility()], lines 214-229. *)
Definition updateHeaderVisibility : M unit :=
  w <- get ;;
  (if falsy_offset (lastScrollTop w)
   then modify (set_lastScrollTop (Some 0%Q))
   else ret tt) ;;
  let scrollTop := currentOffset (doc w) in
  header <- safeQuerySelector (Config.sel_header CONFIG) ;;
  match header with
  | None => ret tt
  | Some h =>
      w' <- get ;;
      let last := match lastScrollTop w' with Some q => q | None => 0%Q end in
      (if negb (Qle_bool scrollTop last) && negb (Qle_bool scrollTop 100%Q)
       then setStyle h "transform" (Css "translateY(-100%)")
       else setStyle h "transform" (Css "translateY(0)")) ;;
      modify (set_lastScrollTop
                (Some (if Qle_bool scrollTop 0%Q then 0%Q else scrollTop)))
  end.

(** The function that [handleScroll] debounces, lines 166-169. *)
Definition handleScroll_func : M unit :=
  updateScrollIndicator ;;
  updateHeaderVisibility.

(** [handleScroll], the wrapper [Utils.debounce(..., 16)] returns:
    [clearTimeout(timeout); timeout = setTimeout(later, wait)]. *)
Definition handleScroll : M unit :=
  w <- get ;;
  clearTimeout (handleScroll_timeout w) ;;
  h <- setTimeout ScrollLater 16 ;;
  modify (set_handleScroll_timeout (Some h)).

(** [later] of that wrapper. *)
Definition scrollLater : M unit :=
  w <- get ;;
  clearTimeout (handleScroll_timeout w) ;;
  handleScroll_func.

(** [handleError(e)], lines 175-179. *)
Definition handleError : M unit :=
  w <- get ;;
  console_error ("JavaScript Error: " ++ error (event w)).

(** [handleBeforeUnload()], lines 184-187. *)
Definition handleBeforeUnload : M unit := ret tt.

(** [handleContextMenu(e)], lines 193-195 (never registered). *)
Definition handleContextMenu : M unit := preventDefault.

(** [bindEvents()], lines 131-140. *)
Definition bindEvents : M unit :=
  addEventListener Window "load" OnLoad ;;
  addEventListener Window "scroll" OnScroll ;;
  addEventListener Window "error" OnError ;;
  addEventListener Window "beforeunload" OnBeforeUnload.

(** [initializeNavigation()], lines 234-260. *)
Definition initializeNavigation : M unit :=
  navLinks <- safeQuerySelectorAll (Config.sel_navLinks CONFIG) ;;
  forEach navLinks (fun link =>
    addEventListener (Node link) "click" (OnNavLinkClick link)).

(** [targetId.substring(1)]. *)
Definition substring1 (s : string) : string :=
  match s with
  | EmptyString => ""
  | String _ s' => s'
  end.

(** The click listener of a navigation link, lines 238-258. *)
Definition navLinkClick (link : Elem) : M unit :=
  preventDefault ;;
  w <- get ;;
  let targetId := getAttribute_href (doc w) link in
  match targetId with
  | Some targetId =>
      if startsWith targetId "#" then
        let sectionName := substring1 targetId in
        if truthy (lookup (Config.urls CONFIG) sectionName) then
          window_open (lookup (Config.urls CONFIG) sectionName) "_blank"
        else
          targetElement <- safeQuerySelector targetId ;;
          match targetElement with
          | Some el => scrollIntoView el
          | None => ret tt
          end
      else ret tt
  | None => ret tt
  end.

(** [handleCardClick(link, section)], lines 298-327. *)
Definition handleCardClick (link : Elem) (section : string) : M unit :=
  let targetUrl := lookup (Config.urls CONFIG) section in
  if negb (truthy targetUrl) then
    console_warn ("No URL configured for section: " ++ section)
  else if negb (isValidUrl URL_new targetUrl (Config.allowedDomains CONFIG)) then
    console_error ("Invalid or unauthorized URL: " ++ display targetUrl)
  else
    w <- get ;;
    let originalText := textContent w link in
    setStyle link "opacity" (Css "0.7") ;;
    setTextContent link "載入中..." ;;
    _ <- setTimeout (Navigate targetUrl link originalText)
                    (Z.min (Config.navigationDelay CONFIG)
                           (Config.maxRedirectDelay CONFIG)) ;;
    ret tt.

(** The timer callback of [handleCardClick], lines 318-326. *)
Definition navigate (targetUrl : value) (link : Elem) (originalText : string)
  : M unit :=
  w <- get ;;
  if location_rejects (doc w) (display targetUrl) then
    console_error "Navigation error:" ;;
    setStyle link "opacity" (Css "1") ;;
    setTextContent link originalText
  else
    modify (set_location_href (display targetUrl)).

(** [addHoverEffects(card)], lines 333-341, and its two listeners. *)
Definition addHoverEffects (card : Elem) : M unit :=
  addEventListener (Node card) "mouseenter" OnCardMouseEnter ;;
  addEventListener (Node card) "mouseleave" OnCardMouseLeave.

Definition cardMouseEnter (this : Elem) : M unit :=
  setStyle this "transform" (Css "translateY(-10px) scale(1.02)").

Definition cardMouseLeave (this : Elem) : M unit :=
  setStyle this "transform" (Css "translateY(0) scale(1)").

(** The body of the [forEach] of [initializeCards], lines 268-290. *)
Definition initializeCard (card : Elem) : M unit :=
  w <- get ;;
  let link := card_link (doc w) card in
  let section := dataset_section (doc w) card in
  match link, section with
  | Some link, Some section =>
      if section =? "" then ret tt
      else
        addEventListener (Node card) "click" (OnCardClick link section) ;;
        addHoverEffects card ;;
        addEventListener (Node link) "click" (OnCardLinkClick link section)
  | _, _ => ret tt
  end.

(** [initializeCards()], lines 265-291. *)
Definition initializeCards : M unit :=
  navCards <- safeQuerySelectorAll (Config.sel_navCards CONFIG) ;;
  forEach navCards initializeCard.

(** The two click listeners of a card, lines 275-279 and 285-289. *)
Definition cardClick (link : Elem) (section : string) : M unit :=
  w <- get ;;
  match closest_card_link (doc w) (target (event w)) with
  | None => handleCardClick link section
  | Some _ => ret tt
  end.

Definition cardLinkClick (link : Elem) (section : string) : M unit :=
  preventDefault ;;
  stopPropagation ;;
  handleCardClick link section.

(** [initializeIntersectionObserver()], lines 346-365.  The observer is
    held by the local constant [observer] only. *)
Definition initializeIntersectionObserver : M unit :=
  observer <- newIntersectionObserver 0.1%Q "0px 0px -50px 0px" ;;
  navCards <- safeQuerySelectorAll (Config.sel_navCards CONFIG) ;;
  forEach navCards (fun card => observe observer card).

(** The observer's callback, lines 352-358. *)
Definition onIntersection (entries : list (Elem * bool)) : M unit :=
  forEach entries (fun entry =>
    if snd entry
    then setStyle (fst entry) "animation" (Css "fadeInUp 0.8s ease forwards")
    else ret tt).

(** [cleanup()], lines 367-371. *)
Definition cleanup : M unit :=
  w <- get ;;
  match intersectionObserver w with
  | Some o => disconnect o
  | None => ret tt
  end.

(** [initializeComponents()] and [init()], lines 123-126 and 145-149. *)
Definition initializeComponents : M unit :=
  initializeNavigation ;;
  initializeCards ;;
  initializeIntersectionObserver.

Definition init : M unit :=
  bindEvents ;;
  initializeComponents.

(** The script's last statement, lines 375-379. *)
Definition main : M unit :=
  w <- get ;;
  if readyState (doc w) =? "loading"
  then addEventListener Document "DOMContentLoaded" OnDOMContentLoaded
  else init.

(** Running a listener on the event [e]; [this] is the target the
    listener was registered on. *)
Definition dispatch (h : Handler) (this : Target) (e : Event) : M unit :=
  modify (set_event e) ;;
  match h with
  | OnDOMContentLoaded => init
  | OnLoad => handleWindowLoad
  | OnScroll => handleScroll
  | OnError => handleError
  | OnBeforeUnload => handleBeforeUnload
  | OnNavLinkClick link => navLinkClick link
  | OnCardClick link section => cardClick link section
  | OnCardLinkClick link section => cardLinkClick link section
  | OnCardMouseEnter =>
      match this with
      | Node el => cardMouseEnter el
      | _ => ret tt
      end
  | OnCardMouseLeave =>
      match this with
      | Node el => cardMouseLeave el
      | _ => ret tt
      end
  end.

(** Running a timer callback. *)
Definition runCallback (cb : Callback) : M unit :=
  match cb with
  | HideLoading => hideLoading
  | ScrollLater => scrollLater
  | Navigate targetUrl link originalText =>
      navigate targetUrl link originalText
  end.

(** The event loop running the timers that fall due by [limit], each at
    its time; an exception a callback throws is reported and the loop
    goes on. *)
Fixpoint fire (fuel : nat) (limit : nat) (w : World) : World :=
  match fuel with
  | O => w
  | S fuel' =>
      match Timers.pop limit (timers w) with
      | Some (x, tm) =>
          fire fuel' limit
               (snd (runCallback (Timers.payload x) (set_timers tm w)))
      | None => w
      end
  end.

(** [dt] milliseconds pass with no event.  No callback of the script
    schedules a timer, so one round per pending timer runs them all. *)
Definition elapse (dt : nat) (w : World) : World :=
  let limit := (Timers.clock (timers w) + dt)%nat in
  let w' := fire (length (Timers.pending (timers w))) limit w in
  set_timers (Timers.set_clock limit (timers w')) w'.

End WithPlatform.

End App.

(* ===================================================================== *)
(** * A concrete platform, to run the script on *)
(* ===================================================================== *)

Module Demo.

Import Page.

Definition is_alpha (c : ascii) : bool :=
  let n := nat_of_ascii c in
  ((65 <=? n) && (n <=? 90) || (97 <=? n) && (n <=? 122))%nat.

Definition is_digit (c : ascii) : bool :=
  let n := nat_of_ascii c in ((48 <=? n) && (n <=? 57))%nat.

Definition lower (c : ascii) : ascii :=
  let n := nat_of_ascii c in
  if ((65 <=? n) && (n <=? 90))%nat then ascii_of_nat (n + 32) else c.

Fixpoint all (f : ascii -> bool) (s : string) : bool :=
  match s with
  | EmptyString => true
  | String c s' => f c && all f s'
  end.

Fixpoint map_string (f : ascii -> ascii) (s : string) : string :=
  match s with
  | EmptyString => ""
  | String c s' => String (f c) (map_string f s')
  end.

(** The string up to the first character satisfying [stop], and the
    rest from that character on. *)
Fixpoint break (stop : ascii -> bool) (s : string) : string * string :=
  match s with
  | EmptyString => ("", "")
  | String c s' =>
      if stop c then ("", s)
      else let '(a, b) := break stop s' in (String c a, b)
  end.

Definition is_scheme_char (c : ascii) : bool :=
  is_alpha c || is_digit c
  || Ascii.eqb c "+" || Ascii.eqb c "-" || Ascii.eqb c ".".

Definition is_host_char (c : ascii) : bool :=
  is_alpha c || is_digit c || Ascii.eqb c "-" || Ascii.eqb c ".".

Definition ends_authority (c : ascii) : bool :=
  Ascii.eqb c "/" || Ascii.eqb c "?" || Ascii.eqb c "#".

(** A URL parser for the plain shape
    [scheme://host[:port][/path][?query][#fragment]] with an ASCII host
    name, giving the scheme and the host in lower case as the platform's
    parser does; it refuses every other string.  It stands in for the
    platform where a concrete run needs one. *)
Definition URL_new (s : string) : option URL :=
  let '(scheme, rest) := break (Ascii.eqb ":") s in
  match scheme, rest with
  | String c _, String _ (String "/" (String "/" after)) =>
      let '(authority, _) := break ends_authority after in
      let '(host, port) := break (Ascii.eqb ":") authority in
      if is_alpha c && all is_scheme_char scheme
         && negb (host =? "") && all is_host_char host
         && all is_digit (App.substring1 port)
      then Some (mkURL (map_string lower scheme ++ ":") (map_string lower host))
      else None
  | _, _ => None
  end.

(** A page: three navigation links, four cards (the third without an
    inner link, the fourth without a [data-section]), a header, a scroll
    indicator and a loading overlay; scrolled to 150 of 500. *)
Definition document : Doc :=
  mkDoc "complete"
    (fun sel =>
       if sel =? "header" then Matched (Some 5)
       else if sel =? "#scrollIndicator" then Matched (Some 6)
       else if sel =? "#loading" then Matched (Some 7)
       else if sel =? "#about" then Matched (Some 8)
       else if sel =? "#" then SyntaxError
       else Matched None)
    (fun sel =>
       if sel =? ".nav-links a" then Matched [1; 2; 3]
       else if sel =? ".nav-card" then Matched [10; 20; 30; 40]
       else Matched [])
    (fun card =>
       match card with
       | 10 => Some 11 | 20 => Some 21 | 40 => Some 41 | _ => None
       end)
    (fun card =>
       match card with
       | 10 => Some "blog" | 20 => Some "constructor" | 30 => Some "blog"
       | _ => None
       end)
    (fun link =>
       match link with
       | 1 => Some "#blog" | 2 => Some "#about"
       | 3 => Some "https://example.org/" | _ => None
       end)
    (fun el =>
       match el with
       | 11 => Some 11 | 21 => Some 21 | 41 => Some 41 | _ => None
       end)
    None
    150%Q 150%Q 1000%Z 500%Z
    (fun _ => false).

Definition click (el : Elem) : Event := mkEvent el "" false false.

(** The page before the script has run. *)
Definition world : World :=
  mkWorld document (click 0) []
          (fun _ => "Blog") (fun _ _ => None) (fun _ => [])
          [] Timers.empty "https://qulluq.com/" [] [] []
          None None None.

(** The same page without a [header] element. *)
Definition headerless : World :=
  mkWorld
    (mkDoc "complete"
       (fun sel => if sel =? "header" then Matched None
                   else querySelector document sel)
       (querySelectorAll document) (card_link document)
       (dataset_section document) (getAttribute_href document)
       (closest_card_link document) None
       150%Q 150%Q 1000%Z 500%Z (fun _ => false))
    (click 0) []
    (fun _ => "Blog") (fun _ _ => None) (fun _ => [])
    [] Timers.empty "https://qulluq.com/" [] [] []
    None None None.

(** A debounced function that records its arguments, and a burst of
    ten invocations within 5 ms: the first, then nine more. *)
Definition record (this : string) (arg : nat) (seen : list nat) : list nat :=
  (seen ++ [arg])%list.

Definition nine_more : list (option nat * (string * nat)) :=
  [ (Some 1, ("App", 2)); (None, ("App", 3)); (Some 1, ("App", 4));
    (Some 0, ("App", 5)); (Some 1, ("App", 6)); (None, ("App", 7));
    (Some 1, ("App", 8)); (Some 0, ("App", 9)); (Some 1, ("App", 10)) ]%nat.

End Demo.

(* ===================================================================== *)
(** * Properties *)
(* ===================================================================== *)

(** ** Strings and association lists *)

Lemma endsWith_spec (s suffix : string) :
  endsWith s suffix = true <-> exists p, s = p ++ suffix.
Proof.
  induction s as [|c s IH]; cbn [endsWith].
  - destruct (String.eqb_spec "" suffix) as [<-|Hne].
    + split; [exists ""; reflexivity | reflexivity].
    + split; [discriminate|].
      intros [p Hp]. destruct p; simpl in Hp; [congruence | discriminate].
  - destruct (String.eqb_spec (String c s) suffix) as [<-|Hne].
    + split; [exists ""; reflexivity | reflexivity].
    + rewrite IH. split.
      * intros [p ->]. exists (String c p). reflexivity.
      * intros [p Hp]. destruct p as [|c' p]; simpl in Hp.
        -- congruence.
        -- injection Hp as _ Hs. exists p. exact Hs.
Qed.

Lemma append_empty_r (s : string) : s ++ "" = s.
Proof. induction s as [|c s IH]; simpl; [reflexivity | now rewrite IH]. Qed.

Lemma assoc_set_same {A : Type} (k : string) (a : A) (l : list (string * A)) :
  assoc k l = Some a -> assoc_set k a l = l.
Proof.
  induction l as [|[k' a'] l IH]; simpl; [discriminate|].
  destruct (String.eqb_spec k' k) as [->|Hne].
  - now intros [= ->].
  - intros H. now rewrite IH.
Qed.

Lemma assoc_In {A : Type} (k : string) (a : A) (l : list (string * A)) :
  assoc k l = Some a -> In (k, a) l.
Proof.
  induction l as [|[k' a'] l IH]; simpl; [discriminate|].
  destruct (String.eqb_spec k' k) as [->|Hne].
  - intros [= ->]. now left.
  - intros H. right. now apply IH.
Qed.

Lemma replace_nth_same {A : Type} (i : nat) (d : A) (l : list A) :
  replace_nth i (nth i l d) l = l.
Proof.
  revert i; induction l as [|x l IH]; intros [|i]; simpl; try reflexivity.
  now rewrite IH.
Qed.

(** ** Utils.isValidUrl *)

Section IsValidUrl.

Variable URL_new : string -> option URL.

Let isValidUrl := Utils.isValidUrl URL_new.

Lemma isValidProtocol_iff (url : URL) :
  Utils.isValidProtocol url = true
  <-> protocol url = "http:" \/ protocol url = "https:".
Proof.
  unfold Utils.isValidProtocol. rewrite orb_true_iff, !String.eqb_eq.
  reflexivity.
Qed.

Lemma isValidDomain_iff (url : URL) (allowedDomains : list string) :
  Utils.isValidDomain url allowedDomains = true
  <-> exists domain, In domain allowedDomains
                     /\ (hostname url = domain
                         \/ exists p, hostname url = p ++ "." ++ domain).
Proof.
  unfold Utils.isValidDomain. rewrite existsb_exists.
  split; intros [d [Hin H]]; exists d; split; trivial.
  - apply orb_true_iff in H as [H|H].
    + left. now apply String.eqb_eq.
    + right. now apply endsWith_spec.
  - apply orb_true_iff. destruct H as [H|H].
    + left. now apply String.eqb_eq.
    + right. now apply endsWith_spec.
Qed.

(** With an empty allow-list the protocol check alone decides. *)
Lemma isValidUrl_empty_list (s : string) (url : URL) :
  URL_new s = Some url ->
  isValidUrl (VStr s) [] = Utils.isValidProtocol url.
Proof. intros H. unfold isValidUrl, Utils.isValidUrl. now rewrite H. Qed.

End IsValidUrl.

(** C2.  [isValidUrl(candidate, allowedDomains)] fails closed and accepts
    exactly the http and https URLs of an allowed domain: it is [false]
    for every candidate that is not a string and for every string the URL
    parser refuses, whatever the allow-list; when it is [true] the
    candidate is a string that parses, its scheme is [http:] or [https:]
    and, if the allow-list is not empty, its host is one of the allowed
    domains or ends with ["."] followed by one; conversely a parsed http or
    https URL is accepted as soon as the allow-list is empty or one of its
    domains matches, so that with an empty list the scheme alone decides. *)
Theorem isValidUrl_spec :
  forall (URL_new : string -> option URL)
         (candidate : value) (allowedDomains : list string),
    (typeof candidate <> "string" ->
     Utils.isValidUrl URL_new candidate allowedDomains = false)
    /\ (forall s, candidate = VStr s -> URL_new s = None ->
                  Utils.isValidUrl URL_new candidate allowedDomains = false)
    /\ (Utils.isValidUrl URL_new candidate allowedDomains = true ->
        exists s url,
          candidate = VStr s /\ URL_new s = Some url
          /\ (protocol url = "http:" \/ protocol url = "https:")
          /\ (allowedDomains <> [] ->
              exists domain,
                In domain allowedDomains
                /\ (hostname url = domain
                    \/ exists p, hostname url = p ++ "." ++ domain)))
    /\ (forall s url,
          candidate = VStr s -> URL_new s = Some url ->
          (protocol url = "http:" \/ protocol url = "https:") ->
          (allowedDomains = []
           \/ exists domain,
                In domain allowedDomains
                /\ (hostname url = domain
                    \/ exists p, hostname url = p ++ "." ++ domain)) ->
          Utils.isValidUrl URL_new candidate allowedDomains = true)
    /\ (forall s url,
          candidate = VStr s -> URL_new s = Some url -> allowedDomains = [] ->
          Utils.isValidUrl URL_new candidate allowedDomains
          = ((protocol url =? "http:") || (protocol url =? "https:"))).
Proof.
  intros URL_new candidate allowedDomains. repeat split.
  - destruct candidate; simpl; intros H; try reflexivity. now elim H.
  - intros s -> Hs. unfold Utils.isValidUrl. now rewrite Hs.
  - unfold Utils.isValidUrl. destruct candidate as [| | | |s| | |]; try discriminate.
    destruct (URL_new s) as [url|] eqn:Hs; [|discriminate].
    intros H. exists s, url. repeat split; trivial.
    + apply isValidProtocol_iff.
      destruct allowedDomains; simpl in H; trivial.
      now apply andb_true_iff in H.
    + intros Hne. apply isValidDomain_iff.
      destruct allowedDomains as [|d ds]; [now elim Hne|].
      change (0 <? length (d :: ds))%nat with true in H.
      now apply andb_true_iff in H.
  - intros s url -> Hs Hp Hd. unfold Utils.isValidUrl. rewrite Hs.
    apply isValidProtocol_iff in Hp.
    destruct Hd as [->|Hd]; [exact Hp|].
    apply isValidDomain_iff in Hd. rewrite Hp, Hd.
    now destruct (0 <? length allowedDomains)%nat.
  - intros s url -> Hs ->. unfold Utils.isValidUrl. now rewrite Hs.
Qed.

(** The four examples of the specification, on the concrete parser. *)
Example isValidUrl_examples :
  let allowed := ["example.com"] in
  Utils.isValidUrl Demo.URL_new (VStr "https://example.com/x") allowed = true
  /\ Utils.isValidUrl Demo.URL_new (VStr "https://evil.com") allowed = false
  /\ Utils.isValidUrl Demo.URL_new (VStr "ftp://example.com") allowed = false
  /\ Utils.isValidUrl Demo.URL_new (VStr "https://sub.example.com") allowed = true
  /\ Utils.isValidUrl Demo.URL_new (VStr "https://notexample.com") allowed = false
  /\ Utils.isValidUrl Demo.URL_new (VNum 42) allowed = false.
Proof. repeat split. Qed.

(** ** Utils.sanitizeInput *)

Lemma sanitizeInput_non_string (v : value) :
  typeof v <> "string" -> Utils.sanitizeInput v = "".
Proof. destruct v; simpl; intros H; try reflexivity. now elim H. Qed.

(** A string comes back exactly as it went in: writing [textContent] and
    reading it again encodes nothing. *)
Lemma sanitizeInput_identity (s : string) :
  Utils.sanitizeInput (VStr s) = s.
Proof.
  unfold Utils.sanitizeInput, Dom.createElement, Dom.set_textContent.
  destruct (String.eqb_spec s "") as [->|Hne]; simpl; [reflexivity|].
  apply append_empty_r.
Qed.

(** C6, where the script departs from it.  For values that are not
    strings [sanitizeInput] returns the empty string, as claimed
    ([sanitizeInput_non_string]).  But every string is returned character
    for character: one that holds markup-significant characters comes back
    with all of them still in it, none neutralised. *)
Theorem sanitizeInput_returns_markup_unchanged :
  forall (s : string),
    Utils.sanitizeInput (VStr s) = s
    /\ Dom.has_markup (Utils.sanitizeInput (VStr s)) = Dom.has_markup s.
Proof.
  intros s. now rewrite sanitizeInput_identity.
Qed.

(** An input with markup, what [sanitizeInput] returns for it, and what the
    encoding of the same text node ([innerHTML]) would have been. *)
Example sanitizeInput_example :
  let input := "<img src=x onerror=alert(1)>" in
  Utils.sanitizeInput (VNum 7) = ""
  /\ Utils.sanitizeInput VUndefined = ""
  /\ Dom.has_markup input = true
  /\ Utils.sanitizeInput (VStr input) = input
  /\ Dom.innerHTML (Dom.set_textContent (Dom.createElement "div") input)
     = "&lt;img src=x onerror=alert(1)&gt;".
Proof. repeat split. Qed.

(** ** CONFIG *)

Lemma deep_frozen_child (fr : bool) (props : list (string * value))
      (name : string) (child : value) :
  deep_frozen (VObject fr props) = true ->
  assoc name props = Some child ->
  deep_frozen child = true.
Proof.
  cbn [deep_frozen]. intros H Ha. apply andb_true_iff in H as [_ H].
  rewrite forallb_forall in H. exact (H _ (assoc_In _ _ _ Ha)).
Qed.

Lemma deep_frozen_item (fr : bool) (items : list value) (i : nat) :
  deep_frozen (VArray fr items) = true ->
  (i < length items)%nat ->
  deep_frozen (nth i items VUndefined) = true.
Proof.
  cbn [deep_frozen]. intros H Hi. apply andb_true_iff in H as [_ H].
  rewrite forallb_forall in H. apply H. now apply nth_In.
Qed.

(** The unfolding of [assign] at a path of two names or more. *)
Lemma assign_step (root : value) (name : string) (rest : list string)
      (v : value) :
  rest <> [] ->
  assign root (name :: rest) v
  = match root with
    | VObject fr props =>
        match assoc name props with
        | Some child =>
            match assign child rest v with
            | Some child' => Some (VObject fr (assoc_set name child' props))
            | None => None
            end
        | None => if inherited name then Some root else None
        end
    | VArray fr items =>
        match index_of_name name with
        | Some i =>
            if (i <? length items)%nat then
              match assign (nth i items VUndefined) rest v with
              | Some child' => Some (VArray fr (replace_nth i child' items))
              | None => None
              end
            else None
        | None => if inherited name then Some root else None
        end
    | VNative _ => Some root
    | VUndefined | VNull | VBool _ | VNum _ | VStr _ => None
    end.
Proof. destruct rest; [congruence | reflexivity]. Qed.

(** Every assignment along a path inside an object that is frozen all
    the way down throws. *)
Lemma deep_frozen_immutable (path : list string) :
  forall (root v : value),
    deep_frozen root = true ->
    own_path root path = true ->
    assign root path v = None.
Proof.
  induction path as [|name rest IH]; intros root v Hf Ho; [discriminate|].
  destruct rest as [|name' rest].
  - cbn [own_path] in Ho. cbn [assign]. unfold put.
    destruct root as [| | | | | |[|] props|[|] items];
      try discriminate; apply negb_true_iff in Ho; rewrite Ho; reflexivity.
  - rewrite assign_step by discriminate.
    destruct root as [| | | | | |fr props|fr items]; try discriminate.
    + cbn [own_path] in Ho.
      destruct (assoc name props) as [child|] eqn:Ha; [|discriminate].
      now rewrite (IH child v (deep_frozen_child _ _ _ _ Hf Ha) Ho).
    + cbn [own_path] in Ho.
      destruct (index_of_name name) as [i|]; [|discriminate].
      apply andb_true_iff in Ho as [Hi Ho]. rewrite Hi.
      apply Nat.ltb_lt in Hi.
      now rewrite (IH _ v (deep_frozen_item _ _ _ Hf Hi) Ho).
Qed.

(** Nor does one that goes through a property holding such an object. *)
Lemma assign_through_frozen_child (fr : bool) (props : list (string * value))
      (name : string) (child : value) (rest : list string) (v : value) :
  assoc name props = Some child ->
  deep_frozen child = true ->
  own_path child rest = true ->
  assign (VObject fr props) (name :: rest) v = None.
Proof.
  intros Ha Hf Ho. destruct rest as [|name' rest]; [discriminate|].
  rewrite assign_step by discriminate. rewrite Ha.
  now rewrite (deep_frozen_immutable _ child v Hf Ho).
Qed.

(** X3.  The frozen parts.  Every assignment to a property of the outer
    object throws, [__proto__] apart: that name is an inherited accessor,
    whose setter ignores a value that is neither an object nor [null], so
    that [CONFIG.__proto__ = 'x'] does not throw and changes nothing, and
    throws for [null] and for an object or array literal.  Every
    assignment along a path inside [urls] or [security] throws. *)
Lemma CONFIG_frozen_parts :
  (forall name v, name <> "__proto__" -> put Config.CONFIG name v = None)
  /\ (forall v, is_object_or_null v = false ->
                put Config.CONFIG "__proto__" v = Some Config.CONFIG)
  /\ (forall v, is_object_or_null v = true ->
                (forall builtin, v <> VNative builtin) ->
                put Config.CONFIG "__proto__" v = None)
  /\ (forall path v,
        own_path Config.CONFIG ("urls" :: path) = true ->
        assign Config.CONFIG ("urls" :: path) v = None)
  /\ (forall path v,
        own_path Config.CONFIG ("security" :: path) = true ->
        assign Config.CONFIG ("security" :: path) v = None).
Proof.
  split; [|split; [|split; [|split]]].
  - intros name v Hn. unfold put. apply String.eqb_neq in Hn. now rewrite Hn.
  - intros v Hv. unfold put. cbn. now rewrite Hv.
  - intros v Hv _. unfold put. cbn. now rewrite Hv.
  - intros [|name rest] v Ho; [reflexivity|].
    unfold Config.CONFIG in *.
    eapply assign_through_frozen_child; [reflexivity|reflexivity|exact Ho].
  - intros [|name rest] v Ho; [reflexivity|].
    unfold Config.CONFIG in *.
    eapply assign_through_frozen_child; [reflexivity|reflexivity|exact Ho].
Qed.

(** The paths the literal has inside [urls] and [security], and two that
    leave it. *)
Example CONFIG_own_paths :
  own_path Config.CONFIG ["urls"; "blog"] = true
  /\ own_path Config.CONFIG ["urls"; "shop"] = true
  /\ own_path Config.CONFIG ["security"; "maxRedirectDelay"] = true
  /\ own_path Config.CONFIG ["security"; "allowedDomains"; "0"] = true
  /\ own_path Config.CONFIG ["security"; "allowedDomains"; "length"] = true
  /\ own_path Config.CONFIG ["urls"; "__proto__"] = false
  /\ own_path Config.CONFIG ["urls"; "__proto__"; "shop"] = false
  /\ own_path Config.CONFIG ["urls"; "constructor"; "prototype"; "shop"]
     = false.
Proof. repeat split. Qed.

(** C3, at the failing input.  [Object.freeze] is shallow and is not
    applied to [selectors], [classes] and [animation]: the strict-mode
    assignment [CONFIG.animation.navigationDelay = 0] does not throw and is
    no no-op.  The configuration read afterwards differs from the one
    constructed at startup, and so does the delay [handleCardClick]
    schedules its navigation with; the same holds for a selector. *)
Theorem CONFIG_nested_section_assignable :
  deep_frozen Config.CONFIG = false
  /\ (exists c',
        assign Config.CONFIG ["animation"; "navigationDelay"] (VNum 0) = Some c'
        /\ c' <> Config.CONFIG
        /\ get_path c' ["animation"; "navigationDelay"] = Some (VNum 0)
        /\ (exists cfg',
              Config.read c' = Some cfg'
              /\ Config.navigationDelay cfg' = 0%Z
              /\ Config.navigationDelay Config.config = 500%Z
              /\ map (@Timers.due _)
                     (Timers.pending (Page.timers (snd
                        (App.handleCardClick Demo.URL_new cfg' 11 "blog"
                                             Demo.world))))
                 = [0%nat]
              /\ map (@Timers.due _)
                     (Timers.pending (Page.timers (snd
                        (App.handleCardClick Demo.URL_new Config.config 11 "blog"
                                             Demo.world))))
                 = [500%nat]))
  /\ (exists c',
        assign Config.CONFIG ["selectors"; "header"] (VStr "#none") = Some c'
        /\ get_path c' ["selectors"; "header"] = Some (VStr "#none"))
  /\ (exists c',
        assign Config.CONFIG ["classes"; "hidden"] (VStr "shown") = Some c'
        /\ get_path c' ["classes"; "hidden"] = Some (VStr "shown")).
Proof.
  split; [reflexivity|]. split; [|split].
  - eexists. split; [reflexivity|]. split; [discriminate|].
    split; [reflexivity|]. eexists. repeat split.
  - eexists. split; reflexivity.
  - eexists. split; reflexivity.
Qed.

(** ** App.updateScrollIndicator *)

(** *** Integers as numbers *)

Lemma digits2_pos_le (m : positive) :
  (2 ^ (Zpos (digits2_pos m) - 1) <= Zpos m)%Z.
Proof.
  induction m as [m IH|m IH|]; cbn [digits2_pos]; [| |cbn; lia];
    rewrite Pos2Z.inj_succ;
    replace (Z.succ (Zpos (digits2_pos m)) - 1)%Z
      with (Z.succ (Zpos (digits2_pos m) - 1))%Z by lia;
    rewrite Z.pow_succ_r by lia; lia.
Qed.

Lemma shr_1_m (r : shr_record) :
  (0 <= shr_m r)%Z ->
  shr_m (shr_1 r) = Z.div2 (shr_m r) /\ (0 <= shr_m (shr_1 r))%Z.
Proof.
  destruct r as [m r s]. cbn [shr_m]. intros H.
  destruct m as [|[p|p|]|p]; cbn; try lia.
Qed.

(** Shifting a mantissa right by [n] bits divides it by [2^n]. *)
Lemma iter_shr_1_m (n : positive) :
  forall r : shr_record,
    (0 <= shr_m r)%Z ->
    shr_m (iter_pos shr_1 n r) = Z.shiftr (shr_m r) (Zpos n)
    /\ (0 <= shr_m (iter_pos shr_1 n r))%Z.
Proof.
  induction n as [n IH|n IH|]; intros r Hr; cbn [iter_pos].
  - destruct (shr_1_m r Hr) as [H1 H1'].
    destruct (IH _ H1') as [H2 H2'].
    destruct (IH _ H2') as [H3 H3'].
    split; [|exact H3'].
    rewrite H3, H2, H1, Z.div2_spec, !Z.shiftr_shiftr by lia.
    f_equal. lia.
  - destruct (IH _ Hr) as [H2 H2'].
    destruct (IH _ H2') as [H3 H3'].
    split; [|exact H3'].
    rewrite H3, H2, !Z.shiftr_shiftr by lia. f_equal. lia.
  - destruct (shr_1_m r Hr) as [H1 H1']. split; [|exact H1'].
    now rewrite H1, Z.div2_spec.
Qed.

Lemma shr_record_of_loc_m (m : Z) (l : location) :
  shr_m (shr_record_of_loc m l) = m.
Proof. destruct l as [|[| |]]; reflexivity. Qed.

(** Shifting out fewer bits than the mantissa has leaves a positive
    mantissa, and no smaller an exponent. *)
Lemma shr_positive (m : positive) (l : location) (e n : Z) :
  (n < Zpos (digits2_pos m))%Z ->
  exists m',
    shr_m (fst (shr (shr_record_of_loc (Zpos m) l) e n)) = Zpos m'
    /\ (e <= snd (shr (shr_record_of_loc (Zpos m) l) e n))%Z.
Proof.
  intros Hn. destruct n as [|n|n]; cbn [shr fst snd].
  - exists m. rewrite shr_record_of_loc_m. split; [reflexivity|lia].
  - destruct (iter_shr_1_m n (shr_record_of_loc (Zpos m) l)) as [H _].
    { rewrite shr_record_of_loc_m. lia. }
    rewrite H, shr_record_of_loc_m, Z.shiftr_div_pow2 by lia.
    assert (Hpow : (2 ^ Zpos n <= Zpos m)%Z).
    { etransitivity; [|apply digits2_pos_le].
      apply Z.pow_le_mono_r; lia. }
    assert (Hq : (0 < Zpos m / 2 ^ Zpos n)%Z)
      by (apply Z.div_str_pos; split; [apply Z.pow_pos_nonneg; lia|exact Hpow]).
    destruct (Zpos m / 2 ^ Zpos n)%Z as [|q|q]; try lia.
    exists q. split; [reflexivity|lia].
  - exists m. rewrite shr_record_of_loc_m. split; [reflexivity|lia].
Qed.

Lemma shr_fexp_positive (m : positive) (l : location) (e : Z) :
  (emin prec emax <= e)%Z ->
  exists m',
    shr_m (fst (shr_fexp prec emax (Zpos m) e l)) = Zpos m'
    /\ (e <= snd (shr_fexp prec emax (Zpos m) e l))%Z.
Proof.
  intros He. unfold shr_fexp. apply shr_positive.
  unfold fexp, emin, prec, emax in *. cbn [Zdigits2]. lia.
Qed.

Lemma round_nearest_even_positive (m : positive) (l : location) :
  exists m', round_nearest_even (Zpos m) l = Zpos m'.
Proof.
  destruct l as [|[| |]]; cbn [round_nearest_even]; eauto.
  - destruct (Z.even (Zpos m)); cbn; eauto.
  - cbn; eauto.
Qed.

(** Rounding a positive mantissa at an exponent that is not below the
    least one gives a finite number or an infinity of the same sign:
    never a zero, never NaN. *)
Lemma binary_round_aux_nonzero (sx : bool) (m : positive) (e : Z)
      (l : location) :
  (emin prec emax <= e)%Z ->
  (exists m' e',
     binary_round_aux prec emax sx (Zpos m) e l = S754_finite sx m' e')
  \/ binary_round_aux prec emax sx (Zpos m) e l = S754_infinity sx.
Proof.
  intros He. unfold binary_round_aux.
  destruct (shr_fexp_positive m l e He) as (m1 & Hm1 & He1).
  destruct (shr_fexp prec emax (Zpos m) e l) as [mrs1 e1]. cbn [fst snd] in *.
  rewrite Hm1.
  destruct (round_nearest_even_positive m1 (loc_of_shr_record mrs1)) as [m2 ->].
  destruct (shr_fexp_positive m2 loc_Exact e1 ltac:(lia)) as (m3 & Hm3 & _).
  destruct (shr_fexp prec emax (Zpos m2) e1 loc_Exact) as [mrs3 e3].
  cbn [fst] in Hm3. rewrite Hm3.
  destruct (e3 <=? emax - prec)%Z; [left; eauto|now right].
Qed.

Lemma binary_round_nonzero (sx : bool) (m : positive) :
  (exists m' e', binary_round prec emax sx m 0 = S754_finite sx m' e')
  \/ binary_round prec emax sx m 0 = S754_infinity sx.
Proof.
  unfold binary_round.
  destruct (shl_align m 0 (fexp prec emax (Zpos (digits2_pos m) + 0)))
    as [mz ez] eqn:Ha.
  apply binary_round_aux_nonzero.
  unfold shl_align in Ha.
  destruct (fexp prec emax (Zpos (digits2_pos m) + 0) - 0)%Z eqn:Hd;
    injection Ha as _ <-; unfold fexp, emin, prec, emax in *; lia.
Qed.

(** The number of an integer has the integer's sign: it is greater than
    0 exactly when the integer is, and a zero only for 0. *)
Lemma number_of_Z_sign (z : Z) :
  gt (number_of_Z z) zero = (0 <? z)%Z
  /\ is_zero (number_of_Z z) = (z =? 0)%Z.
Proof.
  destruct z as [|p|p]; [split; reflexivity| |];
    unfold number_of_Z; cbn [binary_normalize].
  - destruct (binary_round_nonzero false p) as [(m' & e' & ->)| ->];
      split; reflexivity.
  - destruct (binary_round_nonzero true p) as [(m' & e' & ->)| ->];
      split; reflexivity.
Qed.

(** C9.  For every [scrollTop], [scrollHeight] and [clientHeight] the
    progress is [(scrollTop / (scrollHeight - clientHeight)) * 100], in
    the arithmetic of numbers, when [scrollHeight - clientHeight] is
    positive, and 0 otherwise.  The division is never one by zero: where
    it is evaluated its divisor is not a zero, and where the divisor
    would be one nothing is divided. *)
Theorem scrollPercent_spec :
  forall (scrollTop : Q) (scrollHeight clientHeight : Z),
    let divisor := number_of_Z (scrollHeight - clientHeight) in
    ((0 < scrollHeight - clientHeight)%Z ->
     App.scrollPercent scrollTop scrollHeight clientHeight
     = mul (div (number_of_Q scrollTop) divisor) (number_of_Z 100)
     /\ is_zero divisor = false)
    /\ ((scrollHeight - clientHeight <= 0)%Z ->
        App.scrollPercent scrollTop scrollHeight clientHeight = zero).
Proof.
  intros st sh ch divisor. subst divisor. unfold App.scrollPercent.
  destruct (number_of_Z_sign (sh - ch)) as [-> ->]. split; intros H.
  - apply Z.ltb_lt in H as Hlt. rewrite Hlt. split; [reflexivity|].
    apply Z.eqb_neq. lia.
  - apply Z.ltb_ge in H. now rewrite H.
Qed.

(** The three examples of the specification, 0, 50 and 0 per cent, and
    two quotients that are not numbers and are rounded: [7 / 25 * 100] is
    [28.000000000000004], the number after 28, and [100 / 300 * 100] is
    [33.33333333333333], the number before the one nearest to a third of
    a hundred. *)
Example scrollPercent_examples :
  App.scrollPercent 0 1000 500 = zero
  /\ App.scrollPercent 250 1000 500 = number_of_Z 50
  /\ App.scrollPercent 250 800 800 = zero
  /\ App.scrollPercent 7 25 0 = S754_finite false 7881299347898369 (-48)
  /\ number_of_Z 28 = S754_finite false 7881299347898368 (-48)
  /\ App.scrollPercent 100 300 0 = S754_finite false 4691249611844266 (-47)
  /\ number_of_Q (100 # 3) = S754_finite false 4691249611844267 (-47).
Proof. repeat split; vm_compute; reflexivity. Qed.

(** Measures as numbers: an integer or a binary fraction is the number
    it is, however the fraction is written; a tenth is no number, and
    becomes the number nearest to it. *)
Example number_of_Q_examples :
  number_of_Q 150 = number_of_Z 150
  /\ number_of_Q (301 # 2) = S754_finite false 5295247999369216 (-45)
  /\ number_of_Q (602 # 4) = number_of_Q (301 # 2)
  /\ number_of_Q (1 # 10) = S754_finite false 7205759403792794 (-56).
Proof. repeat split; vm_compute; reflexivity. Qed.

(** ** Utils.debounce *)

Section DebounceProperties.

Import Debounce.

Variables Ctx Args S : Type.
Variable func : Ctx -> Args -> S -> S.
Variable wait : nat.

(** A wrapper is armed for a closure when its one pending timer is the
    one [timeout] names, due [wait] after the invocation that set it. *)
Definition armed (since : nat) (c : Ctx * Args) (st : state Ctx Args S) : Prop :=
  exists h,
    timeout st = Some h
    /\ Timers.pending (timers st)
       = [Timers.mkTimer h (since + wait) c]
    /\ (since <= Timers.clock (timers st))%nat.

Lemma filter_out_self {P : Type} (x : Timers.timer P) :
  filter (fun y => negb (Timers.id y =? Timers.id x)%nat) [x] = [].
Proof. simpl. now rewrite Nat.eqb_refl. Qed.

(** A wrapper owns the timer table when the one timer that may be
    pending is the one [timeout] names. *)
Definition owned (st : state Ctx Args S) : Prop :=
  Timers.pending (timers st) = []
  \/ exists h due c,
       Timers.pending (timers st) = [Timers.mkTimer h due c]
       /\ timeout st = Some h.

Lemma armed_owned (since : nat) (c : Ctx * Args) (st : state Ctx Args S) :
  armed since c st -> owned st.
Proof. intros (h & Ht & Hp & _). right. now exists h, (since + wait)%nat, c. Qed.

(** An invocation cancels the pending timer and arms the wrapper anew;
    [func] is not applied. *)
Lemma executedFunction_rearms (this : Ctx) (args : Args)
      (st : state Ctx Args S) :
  owned st ->
  let st' := executedFunction wait this args st in
  armed (Timers.clock (timers st)) (this, args) st'
  /\ Timers.clock (timers st') = Timers.clock (timers st)
  /\ user st' = user st /\ applied st' = applied st.
Proof.
  intros H.
  assert (Hp : Timers.pending (Timers.clearTimeout (timeout st) (timers st)) = []).
  { destruct H as [Hp|(h & due & c & Hp & Ht)].
    - destruct (timeout st); simpl; [|exact Hp]. now rewrite Hp.
    - rewrite Ht. simpl. rewrite Hp. simpl. now rewrite Nat.eqb_refl. }
  assert (Hc : Timers.clock (Timers.clearTimeout (timeout st) (timers st))
               = Timers.clock (timers st))
    by (destruct (timeout st); reflexivity).
  unfold executedFunction, Timers.setTimeout.
  destruct (Timers.clearTimeout (timeout st) (timers st)) as [c0 n0 p0].
  simpl in Hp, Hc. subst c0 p0. simpl. repeat split.
  exists n0. simpl. repeat split. lia.
Qed.

(** While the pending timer is not due, time passing applies nothing. *)
Lemma elapse_before_due (since : nat) (c : Ctx * Args) (dt : nat)
      (st : state Ctx Args S) :
  armed since c st ->
  (Timers.clock (timers st) + dt < since + wait)%nat ->
  let st' := elapse func dt st in
  armed since c st'
  /\ Timers.clock (timers st') = (Timers.clock (timers st) + dt)%nat
  /\ user st' = user st /\ applied st' = applied st.
Proof.
  intros [h [Ht [Hp Hc]]] Hlt. unfold elapse. rewrite Hp.
  cbn [length fire]. unfold Timers.pop. rewrite Hp. cbn [Timers.earliest Timers.due].
  replace (since + wait <=? Timers.clock (timers st) + dt)%nat with false
    by (symmetry; apply Nat.leb_gt; lia).
  simpl. repeat split; trivial.
  exists h. simpl. repeat split; trivial. lia.
Qed.

(** Once it is due, time passing applies [func] once, to the closure the
    wrapper is armed for, and leaves nothing pending. *)
Lemma elapse_past_due (since : nat) (c : Ctx * Args) (dt : nat)
      (st : state Ctx Args S) :
  armed since c st ->
  (since + wait <= Timers.clock (timers st) + dt)%nat ->
  let st' := elapse func dt st in
  applied st' = (applied st ++ [c])%list
  /\ user st' = func (fst c) (snd c) (user st)
  /\ Timers.pending (timers st') = [].
Proof.
  intros [h [Ht [Hp Hc]]] Hle. unfold elapse. rewrite Hp.
  cbn [length fire]. unfold Timers.pop. rewrite Hp. cbn [Timers.earliest Timers.due].
  replace (since + wait <=? Timers.clock (timers st) + dt)%nat with true
    by (symmetry; apply Nat.leb_le; lia).
  cbv iota beta. rewrite filter_out_self.
  unfold later. cbn. rewrite Ht. cbn. repeat split.
Qed.

Lemma last_default {A : Type} (y : A) (l : list A) (d d' : A) :
  last (y :: l) d = last (y :: l) d'.
Proof.
  revert y; induction l as [|z l IH]; intros y; [reflexivity|].
  change (last (z :: l) d = last (z :: l) d'). apply IH.
Qed.

Lemma last_call_cons (c x : Ctx * Args) (gap : option nat)
      (rest : list (call Ctx Args)) :
  last_call c ((gap, x) :: rest) = last_call x rest.
Proof.
  unfold last_call. destruct rest as [|y rest]; [reflexivity|].
  change (last ((gap, x) :: y :: rest) (None, c))
    with (last (y :: rest) (None, c)).
  f_equal. apply last_default.
Qed.

(** Between two invocations of a burst the wrapper stays armed: nothing
    is applied, in the same task or over a gap shorter than [wait]. *)
Lemma pause_armed (c : Ctx * Args) (gap : option nat)
      (st : state Ctx Args S) :
  armed (Timers.clock (timers st)) c st ->
  in_burst wait (gap, c) ->
  owned (pause func gap st)
  /\ user (pause func gap st) = user st
  /\ applied (pause func gap st) = applied st.
Proof.
  intros Ha Hg. destruct gap as [dt|]; cbn [pause].
  - cbn in Hg.
    destruct (elapse_before_due _ c dt st Ha ltac:(lia)) as (Ha' & _ & Hu & Hp).
    split; [exact (armed_owned _ _ _ Ha')|now split].
  - split; [exact (armed_owned _ _ _ Ha)|now split].
Qed.

(** Through a burst the wrapper stays armed, for the latest invocation
    and since the time of it. *)
Lemma burst_armed (rest : list (call Ctx Args)) :
  forall (c : Ctx * Args) (st : state Ctx Args S),
    armed (Timers.clock (timers st)) c st ->
    Forall (in_burst wait) rest ->
    let st' := burst func wait rest st in
    armed (Timers.clock (timers st')) (last_call c rest) st'
    /\ user st' = user st /\ applied st' = applied st.
Proof.
  induction rest as [|[gap [this args]] rest IH]; intros c st Ha Hg.
  - simpl. unfold last_call. simpl. auto.
  - inversion Hg as [|? ? Hgap Hrest]; subst.
    cbn [burst].
    destruct (pause_armed c gap st Ha) as (Ho1 & Hu1 & Hp1).
    { destruct gap; [exact Hgap|exact I]. }
    destruct (executedFunction_rearms this args _ Ho1)
      as (Ha2 & Hc2 & Hu2 & Hp2).
    rewrite <- Hc2 in Ha2.
    destruct (IH (this, args) _ Ha2 Hrest) as (Ha3 & Hu3 & Hp3).
    repeat split.
    + rewrite last_call_cons. exact Ha3.
    + congruence.
    + congruence.
Qed.

End DebounceProperties.

(** ** App.initializeCards *)

Section AppProperties.

Import Page.

Variable URL_new : string -> option URL.
Variable CONFIG : Config.t.

Lemma initializeCard_doc (card : Elem) (w : World) :
  doc (snd (App.initializeCard card w)) = doc w.
Proof.
  unfold App.initializeCard, bind, get. simpl.
  destruct (card_link (doc w) card); [|reflexivity].
  destruct (dataset_section (doc w) card) as [s|]; [|reflexivity].
  destruct (s =? ""); reflexivity.
Qed.

Lemma initializeCard_skip (card : Elem) (w : World) :
  card_link (doc w) card = None \/ dataset_section (doc w) card = None ->
  App.initializeCard card w = (Ret tt, w).
Proof.
  unfold App.initializeCard, bind, get. simpl.
  intros [-> | ->]; [reflexivity|].
  destruct (card_link (doc w) card); reflexivity.
Qed.

(** C10.  A card without an inner [.nav-card-link] element or without a
    [data-section] attribute is skipped entirely: the iteration of
    [initializeCards] on it returns normally and leaves the page exactly
    as it was (no listener registered for click, mouseenter or
    mouseleave, nothing written to the console), and whatever list of
    cards it stands in, the outcome of the whole loop is the outcome
    without it. *)
Theorem initializeCards_skips_incomplete_cards :
  forall (w : World) (card : Elem),
    card_link (doc w) card = None \/ dataset_section (doc w) card = None ->
    App.initializeCard card w = (Ret tt, w)
    /\ forall (before after : list Elem),
         forEach (before ++ card :: after) App.initializeCard w
         = forEach (before ++ after) App.initializeCard w.
Proof.
  intros w card H. split; [now apply initializeCard_skip|].
  intros before after. revert w H.
  induction before as [|b before IH]; intros w H.
  - cbn [app forEach]. unfold bind at 1.
    now rewrite initializeCard_skip.
  - cbn [app forEach]. unfold bind.
    pose proof (initializeCard_doc b w) as Hd.
    destruct (App.initializeCard b w) as [[[]|e] w1]; [|reflexivity].
    simpl in Hd. apply IH. now rewrite Hd.
Qed.

End AppProperties.

Lemma initializeCards_skips_incomplete_cards_witness :
  Page.card_link (Page.doc Demo.world) 30 = None
  /\ Page.dataset_section (Page.doc Demo.world) 40 = None
  /\ App.initializeCard 30 Demo.world = (Page.Ret tt, Demo.world)
  /\ Page.forEach [10; 20; 30; 40] App.initializeCard Demo.world
     = Page.forEach [10; 20] App.initializeCard Demo.world.
Proof.
  split; [reflexivity|]. split; [reflexivity|].
  destruct (initializeCards_skips_incomplete_cards Demo.world 30
              (or_introl eq_refl)) as [H30 Hloop].
  split; [exact H30|].
  destruct (initializeCards_skips_incomplete_cards Demo.world 40
              (or_intror eq_refl)) as [_ Hloop'].
  exact (eq_trans (Hloop [10; 20] [40]) (Hloop' [10; 20] [])).
Defined.

(** ** What a handler leaves alone *)

Section Keeps.

Import Page.

Context {X : Type} (proj : World -> X).

(** [m] leaves the component [proj] of the page as it found it. *)
Definition keeps {A : Type} (m : M A) : Prop :=
  forall w, proj (snd (m w)) = proj w.

Lemma keeps_ret {A : Type} (a : A) : keeps (ret a).
Proof. intros w. reflexivity. Qed.

Lemma keeps_throw {A : Type} (e : Exn) : keeps (@throw A e).
Proof. intros w. reflexivity. Qed.

Lemma keeps_get : keeps get.
Proof. intros w. reflexivity. Qed.

Lemma keeps_modify (f : World -> World) :
  (forall w, proj (f w) = proj w) -> keeps (modify f).
Proof. intros H w. apply H. Qed.

Lemma keeps_bind {A B : Type} (m : M A) (k : A -> M B) :
  keeps m -> (forall a, keeps (k a)) -> keeps (bind m k).
Proof.
  intros Hm Hk w. unfold bind. specialize (Hm w).
  destruct (m w) as [[a|e] w1]; simpl in *; [|exact Hm].
  now rewrite Hk.
Qed.

Lemma keeps_forEach {A : Type} (f : A -> M unit) (l : list A) :
  (forall a, keeps (f a)) -> keeps (forEach l f).
Proof.
  intros Hf. induction l as [|a l IH]; [apply keeps_ret|].
  cbn [forEach]. apply keeps_bind; auto.
Qed.

End Keeps.

(** ** Handlers that cannot throw *)

Section Returns.

Import Page.

Definition returns {A : Type} (m : M A) : Prop :=
  forall w, exists a w', m w = (Ret a, w').

Lemma returns_ret {A : Type} (a : A) : returns (ret a).
Proof. intros w. now exists a, w. Qed.

Lemma returns_modify (f : World -> World) : returns (modify f).
Proof. intros w. now exists tt, (f w). Qed.

Lemma returns_bind {A B : Type} (m : M A) (k : A -> M B) :
  returns m -> (forall a, returns (k a)) -> returns (bind m k).
Proof.
  intros Hm Hk w. unfold bind. destruct (Hm w) as (a & w1 & ->).
  apply Hk.
Qed.

Lemma returns_forEach {A : Type} (f : A -> M unit) (l : list A) :
  (forall a, returns (f a)) -> returns (forEach l f).
Proof.
  intros Hf. induction l as [|a l IH]; [apply returns_ret|].
  cbn [forEach]. apply returns_bind; auto.
Qed.

Lemma safeQuerySelectorAll_returns (sel : string) :
  returns (Utils.safeQuerySelectorAll sel).
Proof.
  intros w. unfold Utils.safeQuerySelectorAll, bind, get. simpl.
  destruct (querySelectorAll (doc w) sel); simpl;
    do 2 eexists; reflexivity.
Qed.

Lemma initializeCard_returns (card : Elem) :
  returns (App.initializeCard card).
Proof.
  intros w. unfold App.initializeCard, bind, get. simpl.
  destruct (card_link (doc w) card); [|do 2 eexists; reflexivity].
  destruct (dataset_section (doc w) card) as [s|];
    [|do 2 eexists; reflexivity].
  destruct (s =? ""); do 2 eexists; reflexivity.
Qed.

End Returns.

Section AppKeeps.

Import Page.

Variable CONFIG : Config.t.

Lemma safeQuerySelectorAll_keeps {X : Type} (proj : World -> X) (sel : string) :
  (forall c w, proj (set_console c w) = proj w) ->
  keeps proj (Utils.safeQuerySelectorAll sel).
Proof.
  intros H w. unfold Utils.safeQuerySelectorAll, bind, get. simpl.
  destruct (querySelectorAll (doc w) sel); [reflexivity|]. simpl. apply H.
Qed.

Lemma safeQuerySelector_matched (sel : string) (r : option Elem) (w : World) :
  querySelector (doc w) sel = Matched r ->
  Utils.safeQuerySelector sel w = (Ret r, w).
Proof.
  intros H. unfold Utils.safeQuerySelector, bind, get. simpl. now rewrite H.
Qed.

Lemma safeQuerySelectorAll_matched (sel : string) (l : list Elem) (w : World) :
  querySelectorAll (doc w) sel = Matched l ->
  Utils.safeQuerySelectorAll sel w = (Ret l, w).
Proof.
  intros H. unfold Utils.safeQuerySelectorAll, bind, get. simpl. now rewrite H.
Qed.

Lemma initializeCard_keeps {X : Type} (proj : World -> X) (card : Elem) :
  (forall l w, proj (set_listeners l w) = proj w) ->
  keeps proj (App.initializeCard card).
Proof.
  intros H w. unfold App.initializeCard, bind, get. simpl.
  destruct (card_link (doc w) card); [|reflexivity].
  destruct (dataset_section (doc w) card) as [s|]; [|reflexivity].
  destruct (s =? ""); [reflexivity|]. simpl. now rewrite !H.
Qed.

(** Before the observer is created, [init] changes listeners only. *)
Lemma init_prefix_keeps {X : Type} (proj : World -> X) :
  (forall c w, proj (set_console c w) = proj w) ->
  (forall l w, proj (set_listeners l w) = proj w) ->
  keeps proj (bind App.bindEvents (fun _ =>
              bind (App.initializeNavigation CONFIG) (fun _ =>
              App.initializeCards CONFIG))).
Proof.
  intros Hc Hl.
  assert (Ha : forall t ty h, keeps proj (addEventListener t ty h))
    by (intros t ty h w; apply Hl).
  unfold App.bindEvents, App.initializeNavigation, App.initializeCards.
  repeat first [ apply Ha | apply safeQuerySelectorAll_keeps; exact Hc
               | apply initializeCard_keeps; exact Hl
               | apply keeps_forEach; intros
               | apply keeps_bind; [|intros] ].
Qed.

(** Observing the cards one by one fills the observer that was created
    last. *)
Lemma forEach_observe (cards : list Elem) :
  forall (obs : list Observer) (thr : Q) (margin : string)
         (seen : list Elem) (w : World),
    observers w = (obs ++ [mkObserver thr margin seen true])%list ->
    forEach cards (fun card => observe (length obs) card) w
    = (Ret tt,
       set_observers
         (obs ++ [mkObserver thr margin (seen ++ cards) true])%list w).
Proof.
  assert (Hupd : forall (obs : list Observer) (o : Observer) f,
             update_nth (length obs) f (obs ++ [o])%list
             = (obs ++ [f o])%list).
  { induction obs as [|x obs IH]; intros o f; simpl; [reflexivity|].
    now rewrite IH. }
  induction cards as [|card cards IH]; intros obs thr margin seen w Hw.
  - cbn [forEach]. unfold ret. rewrite app_nil_r, <- Hw.
    now destruct w.
  - cbn [forEach]. unfold bind, observe, modify at 1.
    rewrite Hw, Hupd. cbn [threshold rootMargin observed connected].
    rewrite (IH obs thr margin (seen ++ [card])%list); [|reflexivity].
    rewrite <- app_assoc. reflexivity.
Qed.

Lemma cleanup_without_handle (w : World) :
  intersectionObserver w = None -> App.cleanup w = (Ret tt, w).
Proof.
  intros H. unfold App.cleanup, bind, get. simpl. now rewrite H.
Qed.

(** C5, as the script behaves.  [initializeIntersectionObserver] keeps
    its observer in a local constant and never assigns
    [this.intersectionObserver]; so on every page where [App] has no such
    property yet, [init] returns normally and [cleanup] after it finds
    nothing to disconnect: the page after [init(); cleanup()] is the page
    after [init()], and the observer [init] created is still connected
    and still observes every navigation card. *)
Theorem cleanup_after_init_leaves_observer_connected :
  forall (w : World) (cards : list Elem),
    intersectionObserver w = None ->
    querySelectorAll (doc w) (Config.sel_navCards CONFIG) = Matched cards ->
    exists w',
      App.init CONFIG w = (Ret tt, w')
      /\ bind (App.init CONFIG) (fun _ => App.cleanup) w = (Ret tt, w')
      /\ intersectionObserver w' = None
      /\ observers w'
         = (observers w
            ++ [mkObserver 0.1%Q "0px 0px -50px 0px" cards true])%list.
Proof.
  intros w cards Hio Hq.
  set (prefix := bind App.bindEvents (fun _ =>
                 bind (App.initializeNavigation CONFIG) (fun _ =>
                 App.initializeCards CONFIG))).
  assert (Hinit : App.init CONFIG w
                  = bind prefix
                      (fun _ => App.initializeIntersectionObserver CONFIG) w).
  { unfold App.init, App.initializeComponents, prefix, bind.
    destruct (App.bindEvents w) as [[[]|e] w1]; [|reflexivity].
    destruct (App.initializeNavigation CONFIG w1) as [[[]|e] w2];
      [|reflexivity].
    destruct (App.initializeCards CONFIG w2) as [[[]|e] w3]; reflexivity. }
  assert (Hdoc : doc (snd (prefix w)) = doc w)
    by (apply init_prefix_keeps; reflexivity).
  assert (Hobs : observers (snd (prefix w)) = observers w)
    by (apply init_prefix_keeps; reflexivity).
  assert (Hh : intersectionObserver (snd (prefix w)) = intersectionObserver w)
    by (apply init_prefix_keeps; reflexivity).
  assert (Hret : exists w1, prefix w = (Ret tt, w1)).
  { assert (Hr : returns prefix).
    { unfold prefix, App.bindEvents, App.initializeNavigation,
        App.initializeCards, addEventListener.
      repeat first [ apply returns_modify
                   | apply safeQuerySelectorAll_returns
                   | apply initializeCard_returns
                   | apply returns_forEach; intros
                   | apply returns_bind; [|intros] ]. }
    destruct (Hr w) as ([] & w1 & Hw1). now exists w1. }
  destruct Hret as [w1 Hw1]. rewrite Hw1 in Hdoc, Hobs, Hh. simpl in *.
  assert (Hio1 : App.initializeIntersectionObserver CONFIG w1
                 = (Ret tt,
                    set_observers
                      (observers w
                       ++ [mkObserver 0.1%Q "0px 0px -50px 0px" cards true])%list
                      w1)).
  { unfold App.initializeIntersectionObserver, bind at 1,
      newIntersectionObserver.
    unfold bind at 1. rewrite safeQuerySelectorAll_matched with (l := cards)
      by (simpl; now rewrite Hdoc).
    rewrite (forEach_observe cards (observers w1) 0.1%Q
               "0px 0px -50px 0px" []);
      [|reflexivity].
    simpl. now rewrite Hobs. }
  eexists. split; [|split; [|split]].
  - rewrite Hinit. unfold bind at 1. rewrite Hw1. exact Hio1.
  - unfold bind at 1. rewrite Hinit. unfold bind at 1. rewrite Hw1, Hio1.
    apply cleanup_without_handle. simpl. congruence.
  - simpl. congruence.
  - reflexivity.
Qed.

End AppKeeps.

Lemma cleanup_after_init_leaves_observer_connected_witness :
  Page.intersectionObserver Demo.world = None
  /\ Page.observers
       (snd (Page.bind (App.init Config.config) (fun _ => App.cleanup)
                       Demo.world))
     = [Page.mkObserver 0.1%Q "0px 0px -50px 0px" [10; 20; 30; 40] true].
Proof.
  split; [reflexivity|].
  destruct (cleanup_after_init_leaves_observer_connected Config.config
              Demo.world [10; 20; 30; 40] eq_refl eq_refl)
    as (w' & _ & Hrun & _ & Hobs).
  rewrite Hrun. exact Hobs.
Defined.

(** ** The click listener of a navigation link *)

Section NavLinkProperties.

Import Page.

Variable CONFIG : Config.t.

(** The event after [e.preventDefault()]. *)
Definition prevented (e : Event) : Event :=
  mkEvent (target e) (error e) true (propagationStopped e).

Lemma safeQuerySelector_event (sel : string) (w : World) :
  event (snd (Utils.safeQuerySelector sel w)) = event w.
Proof.
  unfold Utils.safeQuerySelector, bind, get. simpl.
  destruct (querySelector (doc w) sel); [reflexivity|].
  destruct (process_env (doc w)) as [env|]; [|reflexivity].
  destruct (env =? "development"); reflexivity.
Qed.

(** C4, as the script behaves.  The listener calls [e.preventDefault()]
    first, before it looks at the link's target: the default action is
    prevented for every click, also when the handler ends by an
    exception.  For a link whose target is no fragment (no [href], or one
    that does not start with ["#"]) nothing else happens: the page is
    left as it was but for the prevented event.  Opening a window and
    scrolling an element into view happen only in the fragment branch. *)
Theorem navLinkClick_always_prevents_default :
  forall (link : Elem) (w : World),
    defaultPrevented (event (snd (App.navLinkClick CONFIG link w))) = true
    /\ (getAttribute_href (doc w) link = None ->
        App.navLinkClick CONFIG link w
        = (Ret tt, set_event (prevented (event w)) w))
    /\ (forall href,
          getAttribute_href (doc w) link = Some href ->
          startsWith href "#" = false ->
          App.navLinkClick CONFIG link w
          = (Ret tt, set_event (prevented (event w)) w))
    /\ (opened (snd (App.navLinkClick CONFIG link w)) <> opened w
        \/ scrolledIntoView (snd (App.navLinkClick CONFIG link w))
           <> scrolledIntoView w ->
        exists href,
          getAttribute_href (doc w) link = Some href
          /\ startsWith href "#" = true).
Proof.
  intros link w.
  set (w0 := set_event (prevented (event w)) w).
  assert (Hrun : App.navLinkClick CONFIG link w
                 = match getAttribute_href (doc w) link with
                   | Some href =>
                       if startsWith href "#" then
                         (if truthy (lookup (Config.urls CONFIG)
                                            (App.substring1 href))
                          then window_open
                                 (lookup (Config.urls CONFIG)
                                         (App.substring1 href)) "_blank"
                          else bind (Utils.safeQuerySelector href)
                                 (fun targetElement =>
                                    match targetElement with
                                    | Some el => scrollIntoView el
                                    | None => ret tt
                                    end)) w0
                       else (Ret tt, w0)
                   | None => (Ret tt, w0)
                   end).
  { unfold App.navLinkClick, bind at 1, preventDefault, modify.
    unfold bind at 1, get. cbn [doc set_event]. fold w0.
    destruct (getAttribute_href (doc w) link) as [href|]; [|reflexivity].
    destruct (startsWith href "#"); reflexivity. }
  rewrite Hrun. clear Hrun.
  destruct (getAttribute_href (doc w) link) as [href|].
  2:{ split; [reflexivity|]. split; [reflexivity|].
      split; [discriminate|]. intros [H|H]; now elim H. }
  destruct (startsWith href "#") eqn:Hs.
  2:{ split; [reflexivity|]. split; [discriminate|].
      split; [reflexivity|]. intros [H|H]; now elim H. }
  split; [|split; [discriminate|split; [intros h [= <-] Hf; congruence|]]].
  - destruct (truthy _); [reflexivity|].
    unfold bind.
    pose proof (safeQuerySelector_event href w0) as He.
    destruct (Utils.safeQuerySelector href w0) as [[[el|]|e] w1];
      simpl in *; now rewrite He.
  - intros _. now exists href.
Qed.

End NavLinkProperties.

(** C4, the counterexample.  The third link of the page points to
    [https://example.org/], no fragment; a click on it arrives with its
    default action not prevented and leaves the listener with it
    prevented. *)
Lemma navLinkClick_prevents_default_on_plain_link :
  Page.getAttribute_href (Page.doc Demo.world) 3 = Some "https://example.org/"
  /\ startsWith "https://example.org/" "#" = false
  /\ Page.defaultPrevented (Page.event Demo.world) = false
  /\ Page.defaultPrevented
       (Page.event (snd (App.navLinkClick Config.config 3 Demo.world)))
     = true.
Proof. repeat split. Qed.

Lemma navLinkClick_always_prevents_default_witness :
  Page.defaultPrevented
    (Page.event (snd (App.navLinkClick Config.config 2 Demo.world))) = true
  /\ Page.scrolledIntoView (snd (App.navLinkClick Config.config 2 Demo.world))
     = [8]
  /\ App.navLinkClick Config.config 3 Demo.world
     = (Page.Ret tt,
        Page.set_event (prevented (Page.event Demo.world)) Demo.world).
Proof.
  split; [|split; [reflexivity|]].
  - exact (proj1 (navLinkClick_always_prevents_default Config.config 2
                    Demo.world)).
  - destruct (navLinkClick_always_prevents_default Config.config 3 Demo.world)
      as (_ & _ & H & _).
    exact (H "https://example.org/" eq_refl eq_refl).
Defined.

(** ** App.updateHeaderVisibility *)

Section HeaderProperties.

Import Page.

Variable CONFIG : Config.t.

(** The offset the comparison uses for a stored one: [undefined] counts
    as 0. *)
Definition stored (o : option Q) : Q :=
  match o with Some q => q | None => 0%Q end.

Definition hidden : StyleValue := Css "translateY(-100%)".
Definition shown : StyleValue := Css "translateY(0)".

Lemma clamp_is_max (q : Q) :
  ((if Qle_bool q 0 then 0 else q) == Qmax 0 q)%Q
  /\ (0 <= (if Qle_bool q 0 then 0 else q))%Q.
Proof.
  destruct (Qle_bool q 0) eqn:H.
  - apply Qle_bool_iff in H. split; [|apply Qle_refl].
    symmetry. now apply Q.max_l.
  - assert (Hlt : (0 < q)%Q).
    { apply Qnot_le_lt. intros Hle. apply Qle_bool_iff in Hle. congruence. }
    split; [|now apply Qlt_le_weak].
    symmetry. apply Q.max_r. now apply Qlt_le_weak.
Qed.

Lemma gt_bool_iff (x y : Q) : negb (Qle_bool x y) = true <-> (y < x)%Q.
Proof.
  rewrite negb_true_iff. split.
  - intros H. apply Qnot_le_lt. intros Hle.
    apply Qle_bool_iff in Hle. congruence.
  - intros H. destruct (Qle_bool x y) eqn:E; [|reflexivity].
    apply Qle_bool_iff in E. now apply Qlt_not_le in H.
Qed.

(** The offset the update compares with, after line 215. *)
Lemma stored_after_init (o : option Q) :
  (stored (if App.falsy_offset o then Some 0%Q else o) == stored o)%Q.
Proof.
  destruct o as [q|]; simpl; [|reflexivity].
  destruct (Qeq_bool q 0) eqn:E; simpl; [|reflexivity].
  apply Qeq_bool_iff in E. now symmetry.
Qed.

(** C8, as the script behaves.  An execution of the header-visibility
    update that finds the header element hides it (transform
    [translateY(-100%)]) if and only if the current scroll offset exceeds
    both the stored last offset and 100, shows it ([translateY(0)])
    otherwise, and stores [max(0, current offset)], which is not
    negative.  An execution that finds no header element returns before
    that: it changes no style and leaves the stored offset as it was,
    only setting an unset or zero one to 0. *)
Theorem updateHeaderVisibility_spec :
  forall (w : World),
    let current := App.currentOffset (doc w) in
    let last := stored (lastScrollTop w) in
    (forall h,
       querySelector (doc w) (Config.sel_header CONFIG) = Matched (Some h) ->
       exists w',
         App.updateHeaderVisibility CONFIG w = (Ret tt, w')
         /\ (style w' h "transform" = Some hidden
             <-> (last < current /\ 100 < current)%Q)
         /\ (style w' h "transform" = Some shown
             <-> ~ (last < current /\ 100 < current)%Q)
         /\ exists q,
              lastScrollTop w' = Some q
              /\ (q == Qmax 0 current)%Q /\ (0 <= q)%Q)
    /\ (querySelector (doc w) (Config.sel_header CONFIG) = Matched None ->
        App.updateHeaderVisibility CONFIG w
        = (Ret tt,
           if App.falsy_offset (lastScrollTop w)
           then set_lastScrollTop (Some 0%Q) w else w)).
Proof.
  intros w current last. split.
  - intros h Hq.
    set (w1 := if App.falsy_offset (lastScrollTop w)
               then set_lastScrollTop (Some 0%Q) w else w).
    assert (Hdoc : doc w1 = doc w)
      by (unfold w1; destruct (App.falsy_offset _); reflexivity).
    assert (Hlast : (stored (lastScrollTop w1) == last)%Q).
    { unfold w1, last. rewrite <- (stored_after_init (lastScrollTop w)).
      destruct (App.falsy_offset _); reflexivity. }
    assert (Hrun : App.updateHeaderVisibility CONFIG w
                   = bind (Utils.safeQuerySelector (Config.sel_header CONFIG))
                       (fun header =>
                          match header with
                          | None => ret tt
                          | Some h =>
                              bind get (fun w' =>
                                bind
                                  (if negb (Qle_bool current
                                              (stored (lastScrollTop w')))
                                      && negb (Qle_bool current 100)
                                   then setStyle h "transform" hidden
                                   else setStyle h "transform" shown)
                                  (fun _ =>
                                     modify (set_lastScrollTop
                                       (Some (if Qle_bool current 0
                                              then 0%Q else current)))))
                          end) w1).
    { unfold App.updateHeaderVisibility, bind at 1, get.
      unfold bind at 1, w1.
      destruct (App.falsy_offset (lastScrollTop w)); reflexivity. }
    rewrite Hrun. unfold bind at 1.
    rewrite (safeQuerySelector_matched (Config.sel_header CONFIG) (Some h))
      by now rewrite Hdoc.
    unfold bind at 1, get. cbv iota beta.
    set (cond := negb (Qle_bool current (stored (lastScrollTop w1)))
                 && negb (Qle_bool current 100)).
    assert (Hcond : cond = true <-> (last < current /\ 100 < current)%Q).
    { unfold cond. rewrite andb_true_iff, !gt_bool_iff.
      now rewrite Hlast. }
    destruct (clamp_is_max current) as [Hmax Hpos].
    unfold hidden, shown in *.
    destruct cond eqn:Hc; eexists; (split; [reflexivity|]);
      unfold bind, setStyle, modify;
      cbn [snd fst style set_style set_lastScrollTop lastScrollTop];
      rewrite Nat.eqb_refl; cbn [andb String.eqb Ascii.eqb Bool.eqb];
      (split; [|split]).
    + split; [intros _; now apply Hcond | reflexivity].
    + split; [discriminate|]. intros Hn. elim Hn. now apply Hcond.
    + eexists. split; [reflexivity|]. now split.
    + split; [discriminate|]. intros Hn. apply Hcond in Hn. discriminate.
    + split; [|reflexivity]. intros _ Hn. apply Hcond in Hn. discriminate.
    + eexists. split; [reflexivity|]. now split.
  - intros Hq.
    unfold App.updateHeaderVisibility, bind at 1, get.
    unfold bind at 1.
    destruct (App.falsy_offset (lastScrollTop w)); cbn [modify ret];
      unfold bind;
      rewrite (safeQuerySelector_matched (Config.sel_header CONFIG) None)
        by exact Hq; reflexivity.
Qed.

End HeaderProperties.

(** C8, the counterexample.  On the page without a header, freshly
    loaded and scrolled to 150, the update stores 0 as the last offset,
    not [max(0, 150)], and no element is given a transform. *)
Lemma updateHeaderVisibility_without_header :
  Page.querySelector (Page.doc Demo.headerless) "header" = Page.Matched None
  /\ Page.lastScrollTop Demo.headerless = None
  /\ App.currentOffset (Page.doc Demo.headerless) = 150%Q
  /\ (exists w',
        App.updateHeaderVisibility Config.config Demo.headerless
        = (Page.Ret tt, w')
        /\ Page.lastScrollTop w' = Some 0%Q
        /\ forall el, Page.style w' el "transform" = None)
  /\ ~ (0 == Qmax 0 150)%Q.
Proof.
  split; [reflexivity|]. split; [reflexivity|]. split; [reflexivity|].
  split.
  - exists (Page.set_lastScrollTop (Some 0%Q) Demo.headerless).
    repeat split.
  - intros H. rewrite Q.max_r in H by discriminate. discriminate.
Qed.

(** The example of the specification: from an unset offset, a scroll to
    150 hides the header and stores 150; a scroll back to 50 shows it. *)
Lemma updateHeaderVisibility_spec_witness :
  exists w',
    App.updateHeaderVisibility Config.config Demo.world = (Page.Ret tt, w')
    /\ Page.style w' 5 "transform" = Some hidden
    /\ exists q, Page.lastScrollTop w' = Some q /\ (q == Qmax 0 150)%Q.
Proof.
  destruct (updateHeaderVisibility_spec Config.config Demo.world) as [H _].
  destruct (H 5 eq_refl) as (w' & Hrun & Hhid & _ & q & Hq & Hmax & _).
  exists w'. split; [exact Hrun|]. split.
  - apply Hhid. split; reflexivity.
  - exists q. split; [exact Hq | exact Hmax].
Defined.

(** ** App.handleCardClick *)

Section CardClickProperties.

Import Page.

Variable URL_new : string -> option URL.
Variable CONFIG : Config.t.

Let targetUrl (section : string) : value :=
  lookup (Config.urls CONFIG) section.

Let valid (section : string) : bool :=
  Utils.isValidUrl URL_new (targetUrl section) (Config.allowedDomains CONFIG).

Definition log (l : Level) (msg : string) (w : World) : World :=
  set_console (console w ++ [(l, msg)])%list w.

(** A falsy look-up: one warning, and nothing else. *)
Lemma handleCardClick_unconfigured (link : Elem) (section : string) (w : World) :
  truthy (targetUrl section) = false ->
  App.handleCardClick URL_new CONFIG link section w
  = (Ret tt, log Warn ("No URL configured for section: " ++ section) w).
Proof.
  unfold targetUrl. intros H. unfold App.handleCardClick. now rewrite H.
Qed.

(** A truthy look-up that fails validation: one error, and nothing else. *)
Lemma handleCardClick_rejected (link : Elem) (section : string) (w : World) :
  truthy (targetUrl section) = true ->
  valid section = false ->
  App.handleCardClick URL_new CONFIG link section w
  = (Ret tt,
     log Error ("Invalid or unauthorized URL: " ++ display (targetUrl section))
         w).
Proof.
  unfold valid, targetUrl. intros H Hv. unfold App.handleCardClick.
  now rewrite H, Hv.
Qed.

(** A look-up that passes validation: the link is marked as loading and
    the navigation is scheduled, after the smaller of the two delays;
    nothing is logged and the location is not touched yet. *)
Lemma handleCardClick_accepted (link : Elem) (section : string) (w : World) :
  truthy (targetUrl section) = true ->
  valid section = true ->
  exists w',
    App.handleCardClick URL_new CONFIG link section w = (Ret tt, w')
    /\ console w' = console w
    /\ location_href w' = location_href w
    /\ textContent w' link = "載入中..."
    /\ style w' link "opacity" = Some (Css "0.7")
    /\ timers w'
       = snd (Timers.setTimeout
                (Navigate (targetUrl section) link (textContent w link))
                (Z.to_nat (Z.min (Config.navigationDelay CONFIG)
                                 (Config.maxRedirectDelay CONFIG)))
                (timers w)).
Proof.
  unfold valid, targetUrl. intros H Hv. unfold App.handleCardClick.
  rewrite H, Hv. cbn [negb]. eexists. split; [reflexivity|].
  cbn. rewrite Nat.eqb_refl. repeat split.
Qed.

(** The click schedules something only for a target that passed
    validation, and never changes the location itself. *)
Lemma handleCardClick_schedules_only_validated
      (link : Elem) (section : string) (w : World) :
  (timers (snd (App.handleCardClick URL_new CONFIG link section w))
   <> timers w -> valid section = true)
  /\ location_href (snd (App.handleCardClick URL_new CONFIG link section w))
     = location_href w.
Proof.
  destruct (truthy (targetUrl section)) eqn:H.
  - destruct (valid section) eqn:Hv.
    + split; [reflexivity|].
      destruct (handleCardClick_accepted link section w H Hv)
        as (w' & -> & _ & Hl & _). exact Hl.
    + rewrite (handleCardClick_rejected link section w H Hv).
      split; [intros Hn; now elim Hn | reflexivity].
  - rewrite (handleCardClick_unconfigured link section w H).
    split; [intros Hn; now elim Hn | reflexivity].
Qed.

(** A section that is no property at all, own or inherited, is warned
    about. *)
Lemma handleCardClick_absent (link : Elem) (section : string) (w : World) :
  assoc section (Config.urls CONFIG) = None ->
  inherited section = false ->
  App.handleCardClick URL_new CONFIG link section w
  = (Ret tt, log Warn ("No URL configured for section: " ++ section) w).
Proof.
  intros Ha Hi. apply handleCardClick_unconfigured.
  unfold targetUrl, lookup. now rewrite Ha, Hi.
Qed.

(** C1, where the script departs from it.  A section name for which no
    URL is configured but which names a property every object inherits
    ([constructor], [toString], [__proto__], ...) is looked up
    successfully by [CONFIG.urls[section]]: the value is a built-in, it is
    truthy, so the warning is skipped; it is no string, so [isValidUrl]
    refuses it and the click is logged as one error.  No warning is
    logged.  (Nothing is scheduled and the location is not changed: the
    navigation part of the claim holds.) *)
Theorem handleCardClick_inherited_name_logs_error :
  forall (link : Elem) (section : string) (w : World),
    assoc section (Config.urls CONFIG) = None ->
    inherited section = true ->
    App.handleCardClick URL_new CONFIG link section w
    = (Ret tt,
       log Error ("Invalid or unauthorized URL: " ++ display (VNative section))
           w).
Proof.
  intros link section w Ha Hi.
  assert (Ht : targetUrl section = VNative section)
    by (unfold targetUrl, lookup; now rewrite Ha, Hi).
  rewrite <- Ht. apply handleCardClick_rejected.
  - now rewrite Ht.
  - unfold valid. now rewrite Ht.
Qed.

End CardClickProperties.

Lemma handleCardClick_inherited_name_logs_error_witness :
  assoc "constructor" (Config.urls Config.config) = None
  /\ Page.console
       (snd (App.handleCardClick Demo.URL_new Config.config 21 "constructor"
                                 Demo.world))
     = [(Page.Error, "Invalid or unauthorized URL: [native constructor]")]
  /\ Page.timers
       (snd (App.handleCardClick Demo.URL_new Config.config 21 "constructor"
                                 Demo.world))
     = Page.timers Demo.world.
Proof.
  split; [reflexivity|].
  rewrite (handleCardClick_inherited_name_logs_error Demo.URL_new
             Config.config 21 "constructor" Demo.world eq_refl eq_refl).
  split; reflexivity.
Defined.

(** ** The navigation a card click schedules *)

Section CardNavigation.

Import Page.

Variable URL_new : string -> option URL.
Variable CONFIG : Config.t.

(** X1.  A card click logs one warning when the look-up [CONFIG.urls[section]]
    is falsy and one error when the value looked up fails [isValidUrl];
    in both cases that is all it does.  It schedules something only for a
    value that passed [isValidUrl], and never changes the location
    itself. *)
Theorem handleCardClick_fails_closed :
  forall (link : Elem) (section : string) (w : World),
    let targetUrl := lookup (Config.urls CONFIG) section in
    let valid :=
      Utils.isValidUrl URL_new targetUrl (Config.allowedDomains CONFIG) in
    let w' := snd (App.handleCardClick URL_new CONFIG link section w) in
    (truthy targetUrl = false ->
     w' = log Warn ("No URL configured for section: " ++ section) w)
    /\ (truthy targetUrl = true -> valid = false ->
        w' = log Error ("Invalid or unauthorized URL: " ++ display targetUrl) w)
    /\ (timers w' <> timers w -> valid = true)
    /\ location_href w' = location_href w.
Proof.
  intros link section w targetUrl valid w'. subst w'.
  split; [|split].
  - intros H. now rewrite (handleCardClick_unconfigured URL_new CONFIG link
                             section w H).
  - intros H Hv. now rewrite (handleCardClick_rejected URL_new CONFIG link
                                section w H Hv).
  - apply handleCardClick_schedules_only_validated.
Qed.

(** X2.  After a click on a card whose URL passes validation, on a page with no
    other timer pending, the location is unchanged until the smaller of
    [navigationDelay] and [maxRedirectDelay] has elapsed, and is the target
    once it has (the assignment to [location.href] not throwing). *)
Theorem handleCardClick_navigates_after_delay :
  forall (link : Elem) (section : string) (w : World) (dt : nat),
    let targetUrl := lookup (Config.urls CONFIG) section in
    let delay := Z.to_nat (Z.min (Config.navigationDelay CONFIG)
                                 (Config.maxRedirectDelay CONFIG)) in
    let w' := snd (App.handleCardClick URL_new CONFIG link section w) in
    truthy targetUrl = true ->
    Utils.isValidUrl URL_new targetUrl (Config.allowedDomains CONFIG) = true ->
    Timers.pending (timers w) = [] ->
    location_rejects (doc w) (display targetUrl) = false ->
    ((dt < delay)%nat ->
     location_href (App.elapse CONFIG dt w') = location_href w)
    /\ ((delay <= dt)%nat ->
        location_href (App.elapse CONFIG dt w') = display targetUrl).
Proof.
  intros link section w dt targetUrl delay w' Ht Hv Hp Hr.
  assert (Hw' : w' = snd (App.handleCardClick URL_new CONFIG link section w))
    by reflexivity.
  clearbody w'.
  unfold App.handleCardClick in Hw'. fold targetUrl in Hw'.
  rewrite Ht, Hv in Hw'. cbn in Hw'. rewrite Hp in Hw'. cbn in Hw'.
  fold delay in Hw'. subst w'.
  unfold App.elapse. cbn [timers set_timers Timers.pending length App.fire].
  unfold Timers.pop.
  cbn [Timers.pending Timers.earliest Timers.due Timers.clock Timers.id].
  destruct (Timers.clock (timers w) + delay <=? Timers.clock (timers w) + dt)%nat
    eqn:Hd.
  - apply Nat.leb_le in Hd. split; [lia|]. intros _.
    cbn [filter Timers.id]. rewrite Nat.eqb_refl.
    cbn [negb Timers.payload App.runCallback].
    unfold App.navigate, bind, get. cbn [doc set_timers set_textContent set_style].
    rewrite Hr. reflexivity.
  - apply Nat.leb_gt in Hd. split; [|lia]. intros _. reflexivity.
Qed.

(** X4.  [updateScrollIndicator] sets the width of the indicator to the
    progress when the indicator is found, and does nothing when it is
    not. *)
Theorem updateScrollIndicator_spec :
  forall (w : World),
    (forall el,
       querySelector (doc w) (Config.sel_scrollIndicator CONFIG)
       = Matched (Some el) ->
       exists w',
         App.updateScrollIndicator CONFIG w = (Ret tt, w')
         /\ style w' el "width"
            = Some (Percent (App.scrollPercent (scrollTop (doc w))
                                               (scrollHeight (doc w))
                                               (clientHeight (doc w)))))
    /\ (querySelector (doc w) (Config.sel_scrollIndicator CONFIG)
        = Matched None ->
        App.updateScrollIndicator CONFIG w = (Ret tt, w)).
Proof.
  intros w. split.
  - intros el Hq. unfold App.updateScrollIndicator, bind at 1.
    rewrite (safeQuerySelector_matched _ _ _ Hq).
    eexists. split; [reflexivity|]. cbn. now rewrite Nat.eqb_refl.
  - intros Hq. unfold App.updateScrollIndicator, bind at 1.
    now rewrite (safeQuerySelector_matched _ _ _ Hq).
Qed.

End CardNavigation.

(** The example of the specification: a click on the card of the
    configured, allowed section [blog] changes the location after
    [min(500, 1000)] ms and not before. *)
Lemma handleCardClick_navigates_after_delay_witness :
  Page.location_href
    (App.elapse Config.config 499
       (snd (App.handleCardClick Demo.URL_new Config.config 11 "blog"
                                 Demo.world)))
  = "https://qulluq.com/"
  /\ Page.location_href
       (App.elapse Config.config 500
          (snd (App.handleCardClick Demo.URL_new Config.config 11 "blog"
                                    Demo.world)))
     = "https://blog.qulluq.com/".
Proof.
  split.
  - exact (proj1 (handleCardClick_navigates_after_delay Demo.URL_new
                    Config.config 11 "blog" Demo.world 499
                    eq_refl eq_refl eq_refl eq_refl)
                 ltac:(repeat constructor)).
  - exact (proj2 (handleCardClick_navigates_after_delay Demo.URL_new
                    Config.config 11 "blog" Demo.world 500
                    eq_refl eq_refl eq_refl eq_refl)
                 ltac:(repeat constructor)).
Defined.

(* ===================================================================== *)
(** * Further properties of the script *)
(* ===================================================================== *)

(** ** Utils.safeQuerySelector and Utils.safeQuerySelectorAll *)

Section SafeSelectors.

Import Page.

(** X5.  [safeQuerySelector] hands back what the document finds for a
    selector it accepts, leaving the page alone.  For a selector the
    document refuses, it returns [null] after logging exactly one error
    where a [process] object is defined; where none is, its [catch]
    block throws a ReferenceError itself, with nothing logged. *)
Theorem safeQuerySelector_spec :
  forall (selector : string) (w : World),
    (forall r,
       querySelector (doc w) selector = Matched r ->
       Utils.safeQuerySelector selector w = (Ret r, w))
    /\ (forall env,
          querySelector (doc w) selector = SyntaxError ->
          process_env (doc w) = Some env ->
          Utils.safeQuerySelector selector w
          = (Ret None,
             log Error (if env =? "development"
                        then "Invalid selector: " ++ selector
                        else "Selector error occurred") w))
    /\ (querySelector (doc w) selector = SyntaxError ->
        process_env (doc w) = None ->
        Utils.safeQuerySelector selector w
        = (Throw (ReferenceError "process"), w)).
Proof.
  intros selector w. unfold Utils.safeQuerySelector, bind, get.
  cbv iota beta. split; [|split].
  - intros r ->. reflexivity.
  - intros env -> ->. destruct (env =? "development"); reflexivity.
  - intros -> ->. reflexivity.
Qed.

(** X6.  [safeQuerySelectorAll] never throws: it hands back the elements
    the document finds, leaving the page alone, and for a selector the
    document refuses the empty list, after logging exactly one error. *)
Theorem safeQuerySelectorAll_spec :
  forall (selector : string) (w : World),
    (exists l w', Utils.safeQuerySelectorAll selector w = (Ret l, w'))
    /\ (forall l,
          querySelectorAll (doc w) selector = Matched l ->
          Utils.safeQuerySelectorAll selector w = (Ret l, w))
    /\ (querySelectorAll (doc w) selector = SyntaxError ->
        Utils.safeQuerySelectorAll selector w
        = (Ret [], log Error ("Invalid selector: " ++ selector) w)).
Proof.
  intros selector w. split; [apply safeQuerySelectorAll_returns|].
  unfold Utils.safeQuerySelectorAll, bind, get. cbv iota beta.
  split; [intros l ->|intros ->]; reflexivity.
Qed.

End SafeSelectors.

(** ** Utils.isValidUrl and the allow-list *)

Lemma string_append_assoc (a b c : string) : (a ++ b) ++ c = a ++ (b ++ c).
Proof. induction a as [|x a IH]; simpl; [reflexivity | now rewrite IH]. Qed.

Section AllowList.

Variable URL_new : string -> option URL.

(** A host that matches a subdomain of [domain] matches [domain]. *)
Lemma matches_subdomain (host domain p : string) :
  host = p ++ "." ++ domain
  \/ (exists q, host = q ++ "." ++ (p ++ "." ++ domain)) ->
  exists q, host = q ++ "." ++ domain.
Proof.
  intros [->|[q ->]].
  - now exists p.
  - exists (q ++ "." ++ p).
    now rewrite !string_append_assoc.
Qed.

Lemma isValidDomain_incl (url : URL) (ds ds' : list string) :
  incl ds ds' ->
  Utils.isValidDomain url ds = true -> Utils.isValidDomain url ds' = true.
Proof.
  intros Hi. rewrite !isValidDomain_iff. intros (d & Hd & H).
  exists d. split; [now apply Hi | exact H].
Qed.

(** X7.  Widening the allow-list never turns an accepted URL into a
    refused one: what [isValidUrl] accepts under a non-empty list it
    accepts under every list that contains it, and what it accepts under
    any list it accepts under the empty list, which restricts nothing. *)
Theorem isValidUrl_allowlist_monotone :
  forall (candidate : value) (allowedDomains wider : list string),
    Utils.isValidUrl URL_new candidate allowedDomains = true ->
    Utils.isValidUrl URL_new candidate [] = true
    /\ (allowedDomains <> [] -> incl allowedDomains wider ->
        Utils.isValidUrl URL_new candidate wider = true).
Proof.
  intros candidate ds wider. unfold Utils.isValidUrl.
  destruct candidate as [| | | |s| | |]; try discriminate.
  destruct (URL_new s) as [url|]; [|discriminate].
  destruct ds as [|d ds].
  - intros H. split; [exact H|]. intros Hn. now elim Hn.
  - change (0 <? length (d :: ds))%nat with true. cbv iota.
    intros H. apply andb_true_iff in H as [Hp Hd].
    split; [exact Hp|]. intros _ Hi.
    rewrite Hp, (isValidDomain_incl url _ _ Hi Hd).
    now destruct (0 <? length wider)%nat.
Qed.

(** Entries that are subdomains of entries already there match no host
    that those do not match. *)
Lemma isValidDomain_append_redundant (url : URL) (ds more : list string) :
  (forall s, In s more ->
             exists domain,
               In domain ds
               /\ (s = domain \/ exists p, s = p ++ "." ++ domain)) ->
  Utils.isValidDomain url (ds ++ more) = Utils.isValidDomain url ds.
Proof.
  intros Hsub. unfold Utils.isValidDomain at 1. rewrite existsb_app.
  fold (Utils.isValidDomain url ds). fold (Utils.isValidDomain url more).
  destruct (Utils.isValidDomain url ds) eqn:Hd; [reflexivity|].
  destruct (Utils.isValidDomain url more) eqn:Hm; [|reflexivity].
  apply isValidDomain_iff in Hm as (m & Hin & Hhost).
  destruct (Hsub m Hin) as (dom & Hdom & Hm).
  assert (Hyes : Utils.isValidDomain url ds = true).
  { apply isValidDomain_iff. exists dom. split; [exact Hdom|].
    destruct Hm as [->|[p ->]]; [exact Hhost|].
    right. now apply (matches_subdomain _ _ p). }
  congruence.
Qed.

(** X8.  An allow-list entry that is a subdomain of another entry (or a
    repetition of one) is redundant: appending such entries to a non-empty
    list does not change what [isValidUrl] accepts. *)
Theorem isValidUrl_subdomain_entries_redundant :
  forall (candidate : value) (allowedDomains more : list string),
    allowedDomains <> [] ->
    (forall s, In s more ->
               exists domain,
                 In domain allowedDomains
                 /\ (s = domain \/ exists p, s = p ++ "." ++ domain)) ->
    Utils.isValidUrl URL_new candidate (allowedDomains ++ more)
    = Utils.isValidUrl URL_new candidate allowedDomains.
Proof.
  intros candidate ds more Hne Hsub. unfold Utils.isValidUrl.
  destruct candidate as [| | | |s| | |]; try reflexivity.
  destruct (URL_new s) as [url|]; [|reflexivity].
  destruct ds as [|d ds]; [now elim Hne|].
  change (0 <? length ((d :: ds) ++ more))%nat with true.
  change (0 <? length (d :: ds))%nat with true. cbv iota.
  now rewrite (isValidDomain_append_redundant url (d :: ds) more Hsub).
Qed.

(** So for the allow-list of [CONFIG]: its entry [blog.qulluq.com] adds
    nothing to [qulluq.com]. *)
Lemma CONFIG_allowedDomains_redundant (candidate : value) :
  Utils.isValidUrl URL_new candidate (Config.allowedDomains Config.config)
  = Utils.isValidUrl URL_new candidate ["qulluq.com"].
Proof.
  unfold Utils.isValidUrl.
  destruct candidate as [| | | |s| | |]; try reflexivity.
  destruct (URL_new s) as [url|]; [|reflexivity].
  change (Config.allowedDomains Config.config)
    with (["qulluq.com"] ++ ["blog.qulluq.com"])%list.
  rewrite (isValidDomain_append_redundant url ["qulluq.com"]
             ["blog.qulluq.com"]); [reflexivity|].
  intros x [<-|[]]. exists "qulluq.com". split; [now left|].
  right. now exists "blog".
Qed.

End AllowList.

Lemma isValidUrl_subdomain_entries_redundant_witness :
  Utils.isValidUrl Demo.URL_new (VStr "https://www.blog.qulluq.com/x")
    ["qulluq.com"; "blog.qulluq.com"]
  = Utils.isValidUrl Demo.URL_new (VStr "https://www.blog.qulluq.com/x")
      ["qulluq.com"].
Proof.
  apply (isValidUrl_subdomain_entries_redundant Demo.URL_new
           (VStr "https://www.blog.qulluq.com/x")
           ["qulluq.com"] ["blog.qulluq.com"]).
  - discriminate.
  - intros s [<-|[]]. exists "qulluq.com". split; [now left|].
    right. now exists "blog".
Defined.

Lemma isValidUrl_allowlist_monotone_witness :
  Utils.isValidUrl Demo.URL_new (VStr "https://blog.qulluq.com/") ["qulluq.com"]
  = true
  /\ Utils.isValidUrl Demo.URL_new (VStr "https://blog.qulluq.com/")
       ["example.com"; "qulluq.com"] = true
  /\ Utils.isValidUrl Demo.URL_new (VStr "https://blog.qulluq.com/") [] = true.
Proof.
  assert (H : Utils.isValidUrl Demo.URL_new (VStr "https://blog.qulluq.com/")
                ["qulluq.com"] = true) by reflexivity.
  split; [exact H|].
  destruct (isValidUrl_allowlist_monotone Demo.URL_new _ _
              ["example.com"; "qulluq.com"] H) as [He Hw].
  split; [|exact He].
  apply Hw; [discriminate|]. intros x [<-|[]]. right. now left.
Defined.

(** ** CONFIG: the sections left unfrozen *)

Lemma assoc_set_get {A : Type} (k : string) (a : A) (l : list (string * A)) :
  assoc k (assoc_set k a l) = Some a.
Proof.
  induction l as [|[k' a'] l IH]; simpl.
  - now rewrite String.eqb_refl.
  - destruct (String.eqb_spec k' k) as [->|Hne]; simpl.
    + now rewrite String.eqb_refl.
    + apply String.eqb_neq in Hne. now rewrite Hne.
Qed.

Lemma assoc_set_other {A : Type} (k k' : string) (a : A)
      (l : list (string * A)) :
  k' <> k -> assoc k' (assoc_set k a l) = assoc k' l.
Proof.
  intros Hne. induction l as [|[k0 a0] l IH]; simpl.
  - apply String.eqb_neq in Hne. rewrite String.eqb_sym. now rewrite Hne.
  - destruct (String.eqb_spec k0 k) as [->|Hk]; simpl.
    + apply String.eqb_neq in Hne. rewrite (String.eqb_sym k k'). now rewrite Hne.
    + now rewrite IH.
Qed.

(** Assigning a property of a child object that is not frozen, and
    reading along a path afterwards. *)
Lemma assign_unfrozen_child (fr : bool) (props kids : list (string * value))
      (section name : string) (v : value) :
  assoc section props = Some (VObject false kids) ->
  name <> "__proto__" ->
  assign (VObject fr props) [section; name] v
  = Some (VObject fr (assoc_set section
                        (VObject false (assoc_set name v kids)) props)).
Proof.
  intros H Hn. rewrite assign_step by discriminate. rewrite H.
  cbn [assign]. unfold put. apply String.eqb_neq in Hn. now rewrite Hn.
Qed.

Lemma get_path_assoc_set (fr : bool) (props : list (string * value))
      (section : string) (child : value) (other : string) (rest : list string) :
  get_path (VObject fr (assoc_set section child props)) (other :: rest)
  = if other =? section then get_path child rest
    else get_path (VObject fr props) (other :: rest).
Proof.
  cbn [get_path get]. unfold lookup.
  destruct (String.eqb_spec other section) as [->|Hne].
  - now rewrite assoc_set_get.
  - now rewrite (assoc_set_other _ _ _ _ Hne).
Qed.

(** X9.  The three sections of [CONFIG] that the script does not freeze
    take every assignment.  For [selectors], [classes] and [animation],
    any property name but [__proto__] and any value, the strict-mode
    assignment [CONFIG[section][name] = v] succeeds, the value is read
    back at that path, and every other path of [CONFIG] reads as before.
    The name [__proto__] is the inherited accessor: assigning it a value
    that is neither an object nor [null] succeeds too and changes
    nothing. *)
Theorem CONFIG_unfrozen_sections_assignable :
  forall (section : string),
    In section ["selectors"; "classes"; "animation"] ->
    (forall (name : string) (v : value),
       name <> "__proto__" ->
       exists c',
         assign Config.CONFIG [section; name] v = Some c'
         /\ get_path c' [section; name] = Some v
         /\ (forall name' rest,
               name' <> name ->
               get_path c' (section :: name' :: rest)
               = get_path Config.CONFIG (section :: name' :: rest))
         /\ (forall other rest,
               other <> section ->
               get_path c' (other :: rest)
               = get_path Config.CONFIG (other :: rest)))
    /\ (forall (v : value),
          is_object_or_null v = false ->
          assign Config.CONFIG [section; "__proto__"] v = Some Config.CONFIG).
Proof.
  intros section Hin. split.
  - intros name v Hname.
    assert (Hkids : exists kids,
               assoc section
                 match Config.CONFIG with
                 | VObject _ props => props
                 | _ => []
                 end = Some (VObject false kids)).
    { destruct Hin as [<-|[<-|[<-|[]]]]; eexists; reflexivity. }
    destruct Hkids as [kids Hkids]. unfold Config.CONFIG in *.
    cbv beta iota in Hkids.
    eexists. split; [apply assign_unfrozen_child; [exact Hkids|exact Hname]|].
    split; [|split].
    + rewrite get_path_assoc_set, String.eqb_refl.
      cbn [get_path get]. unfold lookup. now rewrite assoc_set_get.
    + intros name' rest Hne.
      rewrite get_path_assoc_set, String.eqb_refl.
      cbn [get_path get]. unfold lookup at 2. rewrite Hkids.
      cbn [get]. unfold lookup. now rewrite (assoc_set_other _ _ _ _ Hne).
    + intros other rest Hne. rewrite get_path_assoc_set.
      apply String.eqb_neq in Hne. now rewrite Hne.
  - intros v Hv.
    destruct Hin as [<-|[<-|[<-|[]]]]; reflexivity.
Qed.

Lemma CONFIG_unfrozen_sections_assignable_witness :
  (exists c',
     assign Config.CONFIG ["selectors"; "navCards"] (VStr ".other") = Some c'
     /\ get_path c' ["selectors"; "navCards"] = Some (VStr ".other")
     /\ get_path c' ["selectors"; "header"] = Some (VStr "header")
     /\ get_path c' ["urls"; "blog"] = Some (VStr "https://blog.qulluq.com/"))
  /\ assign Config.CONFIG ["selectors"; "__proto__"] (VStr "x")
     = Some Config.CONFIG.
Proof.
  destruct (CONFIG_unfrozen_sections_assignable "selectors" (or_introl eq_refl))
    as [Hset Hproto].
  split; [|exact (Hproto (VStr "x") eq_refl)].
  destruct (Hset "navCards" (VStr ".other") ltac:(discriminate))
    as (c' & Ha & Hg & Hsame & Hother).
  exists c'. split; [exact Ha|]. split; [exact Hg|]. split.
  - rewrite (Hsame "header" []); [reflexivity|discriminate].
  - rewrite (Hother "urls" ["blog"]); [reflexivity|discriminate].
Defined.

(** ** Utils.debounce under any schedule *)

Section DebounceSchedules.

Import Debounce.

Variables Ctx Args S : Type.
Variable func : Ctx -> Args -> S -> S.
Variable wait : nat.

(** What can happen to a wrapper: it is invoked, or time passes. *)
Inductive event : Type :=
| Invoke (this : Ctx) (args : Args)
| Wait (dt : nat).

Definition step (st : state Ctx Args S) (e : event) : state Ctx Args S :=
  match e with
  | Invoke this args => executedFunction wait this args st
  | Wait dt => elapse func dt st
  end.

Definition run (events : list event) (st : state Ctx Args S)
  : state Ctx Args S :=
  fold_left step events st.

Fixpoint invocations (events : list event) : list (Ctx * Args) :=
  match events with
  | [] => []
  | Invoke this args :: rest => (this, args) :: invocations rest
  | Wait _ :: rest => invocations rest
  end.

Lemma invocations_app (es es' : list event) :
  invocations (es ++ es') = (invocations es ++ invocations es')%list.
Proof.
  induction es as [|[this args|dt] es IH]; simpl; [reflexivity| |exact IH].
  now rewrite IH.
Qed.

(** What every reachable wrapper satisfies, relative to the invocations
    so far. *)
Definition tidy (calls : list (Ctx * Args)) (st : state Ctx Args S) : Prop :=
  (Timers.pending (timers st) = []
   \/ exists h due c,
        Timers.pending (timers st) = [Timers.mkTimer h due c]
        /\ timeout st = Some h /\ In c calls)
  /\ incl (applied st) calls
  /\ (length (applied st) + length (Timers.pending (timers st))
      <= length calls)%nat.

Lemma tidy_invoke (calls : list (Ctx * Args)) (this : Ctx) (args : Args)
      (st : state Ctx Args S) :
  tidy calls st ->
  tidy (calls ++ [(this, args)]) (executedFunction wait this args st).
Proof.
  intros (Hp & Hi & Hn).
  assert (Hclr : Timers.pending (Timers.clearTimeout (timeout st) (timers st))
                 = []).
  { destruct Hp as [Hp|(h & due & c & Hp & Ht & _)].
    - destruct (timeout st); simpl; [|exact Hp]. now rewrite Hp.
    - rewrite Ht. simpl. rewrite Hp. simpl. now rewrite Nat.eqb_refl. }
  unfold executedFunction, Timers.setTimeout.
  destruct (Timers.clearTimeout (timeout st) (timers st)) as [c0 n0 p0].
  simpl in Hclr. subst p0. unfold tidy. simpl.
  split; [|split].
  - right. do 3 eexists. split; [reflexivity|]. split; [reflexivity|].
    apply in_or_app. right. now left.
  - intros x Hx. apply in_or_app. left. now apply Hi.
  - rewrite length_app. simpl. lia.
Qed.

Lemma tidy_wait (calls : list (Ctx * Args)) (dt : nat)
      (st : state Ctx Args S) :
  tidy calls st -> tidy calls (elapse func dt st).
Proof.
  intros (Hp & Hi & Hn). unfold elapse.
  destruct Hp as [Hp|(h & due & c & Hp & Ht & Hc)].
  - rewrite Hp. cbn [length fire]. unfold tidy. simpl. rewrite Hp.
    split; [now left|]. split; [exact Hi|]. simpl in *. rewrite Hp in Hn.
    exact Hn.
  - rewrite Hp in *. cbn [length fire]. unfold Timers.pop. rewrite Hp.
    cbn [Timers.earliest Timers.due].
    destruct (due <=? Timers.clock (timers st) + dt)%nat.
    + cbv iota beta. rewrite filter_out_self.
      unfold later, tidy. cbn. rewrite Ht. cbn.
      split; [now left|]. split.
      * intros x Hx. apply in_app_or in Hx as [Hx|[<-|[]]]; auto.
      * rewrite length_app. simpl in *. lia.
    + unfold tidy. simpl. rewrite Hp.
      split; [right; now exists h, due, c|]. split; [exact Hi|].
      simpl in *. exact Hn.
Qed.

Lemma tidy_run (events : list event) :
  forall (st : state Ctx Args S),
    tidy [] st -> tidy (invocations events) (run events st).
Proof.
  induction events as [|e events IH] using rev_ind; intros st H; [exact H|].
  unfold run. rewrite fold_left_app, invocations_app. cbn [fold_left].
  fold (run events st). specialize (IH st H).
  destruct e as [this args|dt]; cbn [step invocations].
  - now apply tidy_invoke.
  - rewrite app_nil_r. now apply tidy_wait.
Qed.

(** X10.  Whatever the order of invocations and waiting periods a fresh
    wrapper goes through, at most one execution is pending at any time,
    and it is the one its [timeout] variable names; [func] is only ever
    applied to a context and arguments the wrapper was invoked with; and
    the applications so far together with the pending execution never
    outnumber the invocations. *)
Theorem debounce_any_schedule :
  forall (events : list event) (clock next_id : nat) (u : S),
    let st := run events (debounce (Timers.mk clock next_id []) u) in
    (length (Timers.pending (timers st)) <= 1)%nat
    /\ (forall x, In x (Timers.pending (timers st)) ->
                  timeout st = Some (Timers.id x)
                  /\ In (Timers.payload x) (invocations events))
    /\ incl (applied st) (invocations events)
    /\ (length (applied st) + length (Timers.pending (timers st))
        <= length (invocations events))%nat.
Proof.
  intros events clock next_id u st.
  assert (H0 : tidy [] (@debounce Ctx Args S (Timers.mk clock next_id []) u)).
  { unfold tidy, debounce. simpl. split; [now left|].
    split; [intros x []|lia]. }
  destruct (tidy_run events _ H0) as (Hp & Hi & Hn). fold st in Hp, Hi, Hn.
  split; [|split; [|split]]; trivial.
  - destruct Hp as [->|(h & due & c & -> & _)]; simpl; lia.
  - intros x Hx. destruct Hp as [Hp|(h & due & c & Hp & Ht & Hc)];
      rewrite Hp in Hx; [destruct Hx|].
    destruct Hx as [<-|[]]. now split.
Qed.

Lemma tidy_owned (calls : list (Ctx * Args)) (st : state Ctx Args S) :
  tidy calls st -> owned Ctx Args S st.
Proof.
  intros ([Hp|(h & due & c & Hp & Ht & _)] & _); [now left|].
  right. now exists h, due, c.
Qed.


End DebounceSchedules.


(** ** What listeners and timer callbacks never do *)

Ltac keeps_auto :=
  repeat first
    [ apply keeps_ret | apply keeps_throw | apply keeps_get
    | apply keeps_modify; intros; reflexivity
    | apply keeps_forEach; intros
    | apply keeps_bind; [|intros]
    | match goal with
      | |- keeps _ (if ?b then _ else _) => destruct b
      | |- keeps _ (match ?x with _ => _ end) => destruct x
      end ].

Ltac unfold_app :=
  unfold App.dispatch, App.runCallback, App.init, App.bindEvents,
    App.initializeComponents, App.initializeNavigation, App.initializeCards,
    App.initializeCard, App.initializeIntersectionObserver,
    App.handleWindowLoad, App.hideLoading, App.handleScroll,
    App.scrollLater, App.handleScroll_func, App.updateScrollIndicator,
    App.updateHeaderVisibility, App.handleError, App.handleBeforeUnload,
    App.navLinkClick, App.cardClick, App.cardLinkClick, App.handleCardClick,
    App.navigate, App.addHoverEffects, App.cardMouseEnter,
    App.cardMouseLeave, App.cleanup, App.onIntersection,
    Utils.safeQuerySelector, Utils.safeQuerySelectorAll,
    Page.addEventListener, Page.console_warn, Page.console_error,
    Page.setStyle, Page.setTextContent, Page.classList_add,
    Page.window_open, Page.scrollIntoView, Page.observe, Page.disconnect,
    Page.preventDefault, Page.stopPropagation, Page.clearTimeout.

Section NeverDone.

Import Page.

Variable URL_new : string -> option URL.
Variable CONFIG : Config.t.

Lemma dispatch_keeps_location (h : Handler) (this : Target) (e : Event) :
  keeps location_href (App.dispatch URL_new CONFIG h this e).
Proof. destruct h; unfold_app; keeps_auto. Qed.

Lemma hideLoading_keeps_timers : keeps timers (App.hideLoading CONFIG).
Proof. unfold_app; keeps_auto. Qed.

Lemma handleScroll_func_keeps_timers :
  keeps timers (App.handleScroll_func CONFIG).
Proof. unfold_app; keeps_auto. Qed.

Lemma navigate_keeps_timers (u : value) (link : Elem) (text : string) :
  keeps timers (App.navigate u link text).
Proof. unfold_app; keeps_auto. Qed.

(** X11.  The location is changed by the navigation timer that an
    accepted card click schedules, and by nothing else: no event listener
    of the script changes [window.location.href] when it runs, whatever
    the event and the page, nor does either of the other two timer
    callbacks; the navigation callback sets it to its target unless the
    assignment throws. *)
Theorem location_changes_only_by_navigation :
  (forall (h : Handler) (this : Target) (e : Event) (w : World),
     location_href (snd (App.dispatch URL_new CONFIG h this e w))
     = location_href w)
  /\ (forall (w : World),
        location_href (snd (App.runCallback CONFIG HideLoading w))
        = location_href w
        /\ location_href (snd (App.runCallback CONFIG ScrollLater w))
           = location_href w)
  /\ (forall (targetUrl : value) (link : Elem) (text : string) (w : World),
        location_href
          (snd (App.runCallback CONFIG (Navigate targetUrl link text) w))
        = if location_rejects (doc w) (display targetUrl)
          then location_href w else display targetUrl).
Proof.
  split; [|split].
  - intros h this e w. apply dispatch_keeps_location.
  - intros w. split.
    + assert (H : keeps location_href (App.runCallback CONFIG HideLoading))
        by (unfold_app; keeps_auto).
      apply H.
    + assert (H : keeps location_href (App.runCallback CONFIG ScrollLater))
        by (unfold_app; keeps_auto).
      apply H.
  - intros targetUrl link text w. unfold_app. unfold bind, get, modify.
    cbv iota beta. cbn [doc].
    destruct (location_rejects (doc w) (display targetUrl)); reflexivity.
Qed.

(** X12.  No timer callback of the script schedules a timer: after it has
    run, the timer table holds no timer that was not pending before, has
    handed out no new handle, and shows the same time. *)
Theorem runCallback_schedules_nothing :
  forall (cb : Callback) (w : World),
    let after := timers (snd (App.runCallback CONFIG cb w)) in
    Timers.next_id after = Timers.next_id (timers w)
    /\ Timers.clock after = Timers.clock (timers w)
    /\ incl (Timers.pending after) (Timers.pending (timers w)).
Proof.
  intros [| |u link text] w after; subst after; cbn [App.runCallback].
  - rewrite hideLoading_keeps_timers.
    split; [reflexivity|split; [reflexivity|apply incl_refl]].
  - assert (Ht : timers (snd (App.scrollLater CONFIG w))
                 = Timers.clearTimeout (handleScroll_timeout w) (timers w)).
    { unfold App.scrollLater, bind at 1, get. cbv iota beta.
      unfold bind at 1, clearTimeout, modify. cbv iota beta.
      now rewrite handleScroll_func_keeps_timers. }
    rewrite Ht.
    destruct (handleScroll_timeout w) as [h|]; cbn;
      (split; [reflexivity|split; [reflexivity|]]).
    + intros x Hx. now apply filter_In in Hx.
    + apply incl_refl.
  - rewrite navigate_keeps_timers.
    split; [reflexivity|split; [reflexivity|apply incl_refl]].
Qed.

End NeverDone.

(** ** What [init] sets up *)

Section Setup.

Import Page.

Variable CONFIG : Config.t.

(** The listeners [bindEvents] registers, in order. *)
Definition windowListeners : list Listener :=
  [ mkListener Window "load" OnLoad;
    mkListener Window "scroll" OnScroll;
    mkListener Window "error" OnError;
    mkListener Window "beforeunload" OnBeforeUnload ].

Definition navLinkListener (link : Elem) : Listener :=
  mkListener (Node link) "click" (OnNavLinkClick link).

(** The listeners a card gets: four if it has an inner link and a
    non-empty [data-section], none otherwise. *)
Definition cardListeners (d : Doc) (card : Elem) : list Listener :=
  match card_link d card, dataset_section d card with
  | Some link, Some section =>
      if section =? "" then []
      else [ mkListener (Node card) "click" (OnCardClick link section);
             mkListener (Node card) "mouseenter" OnCardMouseEnter;
             mkListener (Node card) "mouseleave" OnCardMouseLeave;
             mkListener (Node link) "click" (OnCardLinkClick link section) ]
  | _, _ => []
  end.

Lemma set_listeners_same (w : World) : set_listeners (listeners w) w = w.
Proof. now destruct w. Qed.

Lemma forEach_navLinks (links : list Elem) :
  forall (w : World),
    forEach links (fun link =>
      addEventListener (Node link) "click" (OnNavLinkClick link)) w
    = (Ret tt,
       set_listeners (listeners w ++ map navLinkListener links)%list w).
Proof.
  induction links as [|link links IH]; intros w.
  - cbn [forEach map]. rewrite app_nil_r, set_listeners_same. reflexivity.
  - cbn [forEach map]. unfold bind, addEventListener at 1, modify.
    rewrite IH. cbn [listeners set_listeners]. rewrite <- app_assoc.
    reflexivity.
Qed.

Lemma initializeCard_effect (card : Elem) (w : World) :
  App.initializeCard card w
  = (Ret tt, set_listeners (listeners w ++ cardListeners (doc w) card)%list w).
Proof.
  unfold App.initializeCard, cardListeners, bind, get. cbv iota beta.
  destruct (card_link (doc w) card) as [link|];
    [|now rewrite app_nil_r, set_listeners_same].
  destruct (dataset_section (doc w) card) as [section|];
    [|now rewrite app_nil_r, set_listeners_same].
  destruct (section =? "");
    [now rewrite app_nil_r, set_listeners_same|].
  unfold App.addHoverEffects, bind, addEventListener, modify.
  cbn [listeners set_listeners]. rewrite <- !app_assoc. reflexivity.
Qed.

Lemma forEach_cards (cards : list Elem) :
  forall (w : World),
    forEach cards App.initializeCard w
    = (Ret tt,
       set_listeners
         (listeners w ++ flat_map (cardListeners (doc w)) cards)%list w).
Proof.
  induction cards as [|card cards IH]; intros w.
  - cbn [forEach flat_map]. rewrite app_nil_r, set_listeners_same.
    reflexivity.
  - cbn [forEach flat_map]. unfold bind. rewrite initializeCard_effect, IH.
    cbn [listeners set_listeners doc]. rewrite <- app_assoc. reflexivity.
Qed.

(** X13.  [initializeCards] registers, for every navigation card that has
    an inner link and a non-empty [data-section], a click listener on the
    card, its two hover listeners and a click listener on the link, in the
    order of the cards, and for the other cards nothing; it changes
    nothing else.  If the document refuses the card selector it logs one
    error and registers nothing. *)
Theorem initializeCards_registers :
  forall (w : World),
    (forall cards,
       querySelectorAll (doc w) (Config.sel_navCards CONFIG) = Matched cards ->
       App.initializeCards CONFIG w
       = (Ret tt,
          set_listeners
            (listeners w ++ flat_map (cardListeners (doc w)) cards)%list w))
    /\ (querySelectorAll (doc w) (Config.sel_navCards CONFIG) = SyntaxError ->
        App.initializeCards CONFIG w
        = (Ret tt,
           log Error ("Invalid selector: " ++ Config.sel_navCards CONFIG) w)).
Proof.
  intros w. split.
  - intros cards Hq. unfold App.initializeCards, bind at 1.
    rewrite (safeQuerySelectorAll_matched _ _ _ Hq). apply forEach_cards.
  - intros Hq. unfold App.initializeCards, bind at 1.
    unfold Utils.safeQuerySelectorAll, bind, get. cbv iota beta.
    rewrite Hq. reflexivity.
Qed.

(** X14.  On a page whose two list selectors the document accepts, [init]
    returns normally and what it does is exactly this: it appends the four
    window listeners, one click listener per navigation link and the
    listeners of the cards, in this order, and creates one connected
    intersection observer over all navigation cards.  Console, timers,
    location, styles, text and the stored scroll offset are as before. *)
Theorem init_effect :
  forall (w : World) (links cards : list Elem),
    querySelectorAll (doc w) (Config.sel_navLinks CONFIG) = Matched links ->
    querySelectorAll (doc w) (Config.sel_navCards CONFIG) = Matched cards ->
    App.init CONFIG w
    = (Ret tt,
       set_observers
         (observers w
          ++ [mkObserver 0.1%Q "0px 0px -50px 0px" cards true])%list
         (set_listeners
            (listeners w ++ windowListeners
             ++ map navLinkListener links
             ++ flat_map (cardListeners (doc w)) cards)%list w)).
Proof.
  intros w links cards Hl Hc.
  assert (Hb : App.bindEvents w
               = (Ret tt, set_listeners (listeners w ++ windowListeners)%list w)).
  { unfold App.bindEvents, bind, addEventListener, modify, windowListeners.
    cbn [listeners set_listeners]. rewrite <- !app_assoc. reflexivity. }
  unfold App.init, App.initializeComponents.
  unfold bind at 1. rewrite Hb.
  unfold bind at 1, App.initializeNavigation, bind at 1.
  rewrite (safeQuerySelectorAll_matched _ links) by exact Hl.
  rewrite forEach_navLinks. cbn [listeners set_listeners].
  unfold bind at 1, App.initializeCards, bind at 1.
  rewrite (safeQuerySelectorAll_matched _ cards) by exact Hc.
  rewrite forEach_cards. cbn [listeners set_listeners doc].
  unfold App.initializeIntersectionObserver, bind at 1,
    newIntersectionObserver.
  unfold bind at 1.
  rewrite (safeQuerySelectorAll_matched _ cards) by exact Hc.
  rewrite (forEach_observe cards (observers w) 0.1%Q "0px 0px -50px 0px" [])
    by reflexivity.
  cbn [app set_observers set_listeners listeners observers].
  rewrite <- !app_assoc. reflexivity.
Qed.

End Setup.

Lemma init_effect_witness :
  Page.listeners (snd (App.init Config.config Demo.world))
  = (windowListeners
     ++ [navLinkListener 1; navLinkListener 2; navLinkListener 3]
     ++ [ Page.mkListener (Page.Node 10) "click" (Page.OnCardClick 11 "blog");
          Page.mkListener (Page.Node 10) "mouseenter" Page.OnCardMouseEnter;
          Page.mkListener (Page.Node 10) "mouseleave" Page.OnCardMouseLeave;
          Page.mkListener (Page.Node 11) "click"
                          (Page.OnCardLinkClick 11 "blog");
          Page.mkListener (Page.Node 20) "click"
                          (Page.OnCardClick 21 "constructor");
          Page.mkListener (Page.Node 20) "mouseenter" Page.OnCardMouseEnter;
          Page.mkListener (Page.Node 20) "mouseleave" Page.OnCardMouseLeave;
          Page.mkListener (Page.Node 21) "click"
                          (Page.OnCardLinkClick 21 "constructor") ])%list
  /\ Page.console (snd (App.init Config.config Demo.world)) = [].
Proof.
  rewrite (init_effect Config.config Demo.world [1; 2; 3] [10; 20; 30; 40]
             eq_refl eq_refl).
  split; reflexivity.
Defined.

(** ** Clicks *)

Section Clicks.

Import Page.

Variable URL_new : string -> option URL.
Variable CONFIG : Config.t.

(** The event after [e.preventDefault(); e.stopPropagation()]. *)
Definition intercepted (e : Event) : Event :=
  mkEvent (target e) (error e) true true.

(** [handleCardClick] neither reads nor writes the event. *)
Lemma handleCardClick_event (link : Elem) (section : string)
      (e : Event) (w : World) :
  App.handleCardClick URL_new CONFIG link section (set_event e w)
  = (fst (App.handleCardClick URL_new CONFIG link section w),
     set_event e (snd (App.handleCardClick URL_new CONFIG link section w))).
Proof.
  unfold App.handleCardClick.
  destruct (truthy (lookup (Config.urls CONFIG) section)); [|reflexivity].
  destruct (Utils.isValidUrl URL_new _ _); reflexivity.
Qed.

(** X15.  A click on a card outside its inner link and a click on the
    inner link do the same to the page: the card's listener runs
    [handleCardClick] as it is, the link's listener runs it after
    preventing the default action and stopping propagation, and the two
    outcomes differ in these two flags of the event only.  For a click
    inside the link the card's own listener does nothing. *)
Theorem card_clicks_agree :
  forall (link : Elem) (section : string) (w : World),
    (closest_card_link (doc w) (target (event w)) = None ->
     App.cardClick URL_new CONFIG link section w
     = App.handleCardClick URL_new CONFIG link section w)
    /\ (closest_card_link (doc w) (target (event w)) <> None ->
        App.cardClick URL_new CONFIG link section w = (Ret tt, w))
    /\ App.cardLinkClick URL_new CONFIG link section w
       = (fst (App.handleCardClick URL_new CONFIG link section w),
          set_event (intercepted (event w))
            (snd (App.handleCardClick URL_new CONFIG link section w))).
Proof.
  intros link section w. split; [|split].
  - intros H. unfold App.cardClick, bind, get. cbv iota beta. now rewrite H.
  - intros H. unfold App.cardClick, bind, get. cbv iota beta.
    destruct (closest_card_link (doc w) (target (event w)));
      [reflexivity | now elim H].
  - unfold App.cardLinkClick, bind, preventDefault, stopPropagation, modify.
    cbv iota beta. cbn [event set_event target error defaultPrevented
                          propagationStopped].
    apply (handleCardClick_event link section (intercepted (event w)) w).
Qed.

(** X16.  In the fragment branch of the navigation-link listener: if the
    fragment names a truthy property of [CONFIG.urls], that value is opened
    in a new browsing context ([_blank]) as it is, without [isValidUrl],
    and nothing is scrolled; otherwise the element the fragment selects is
    scrolled into view if there is one, and nothing happens if there is
    none.  The default action is prevented in each case. *)
Theorem navLinkClick_fragment :
  forall (link : Elem) (href : string) (w : World),
    getAttribute_href (doc w) link = Some href ->
    startsWith href "#" = true ->
    let target := lookup (Config.urls CONFIG) (App.substring1 href) in
    let w0 := set_event (prevented (event w)) w in
    (truthy target = true ->
     App.navLinkClick CONFIG link w
     = (Ret tt, set_opened (opened w ++ [(display target, "_blank")])%list w0))
    /\ (truthy target = false ->
        forall el,
          querySelector (doc w) href = Matched (Some el) ->
          App.navLinkClick CONFIG link w
          = (Ret tt,
             set_scrolledIntoView (scrolledIntoView w ++ [el])%list w0))
    /\ (truthy target = false ->
        querySelector (doc w) href = Matched None ->
        App.navLinkClick CONFIG link w = (Ret tt, w0)).
Proof.
  intros link href w Hh Hs target w0.
  assert (Hrun : App.navLinkClick CONFIG link w
                 = (if truthy target
                    then window_open target "_blank"
                    else bind (Utils.safeQuerySelector href)
                           (fun targetElement =>
                              match targetElement with
                              | Some el => scrollIntoView el
                              | None => ret tt
                              end)) w0).
  { unfold App.navLinkClick, bind at 1, preventDefault, modify.
    unfold bind at 1, get. cbn [doc set_event]. rewrite Hh, Hs. reflexivity. }
  rewrite Hrun. split; [|split].
  - intros ->. reflexivity.
  - intros -> el Hq. unfold bind.
    rewrite (safeQuerySelector_matched href (Some el)) by exact Hq.
    reflexivity.
  - intros -> Hq. unfold bind.
    rewrite (safeQuerySelector_matched href None) by exact Hq.
    reflexivity.
Qed.

End Clicks.

Lemma card_clicks_agree_witness :
  Page.timers (snd (App.cardClick Demo.URL_new Config.config 11 "blog"
                                  Demo.world))
  = Page.timers (snd (App.cardLinkClick Demo.URL_new Config.config 11 "blog"
                                        Demo.world))
  /\ Page.event (snd (App.cardLinkClick Demo.URL_new Config.config 11 "blog"
                                        Demo.world))
     = intercepted (Page.event Demo.world).
Proof.
  destruct (card_clicks_agree Demo.URL_new Config.config 11 "blog" Demo.world)
    as (Hout & _ & Hlink).
  rewrite (Hout eq_refl), Hlink. split; reflexivity.
Defined.

Lemma navLinkClick_fragment_witness :
  Page.opened (snd (App.navLinkClick Config.config 1 Demo.world))
  = [("https://blog.qulluq.com/", "_blank")]
  /\ Page.scrolledIntoView (snd (App.navLinkClick Config.config 2 Demo.world))
     = [8].
Proof.
  destruct (navLinkClick_fragment Config.config 1 "#blog" Demo.world
              eq_refl eq_refl) as (Hopen & _ & _).
  destruct (navLinkClick_fragment Config.config 2 "#about" Demo.world
              eq_refl eq_refl) as (_ & Hscroll & _).
  rewrite (Hopen eq_refl), (Hscroll eq_refl 8 eq_refl).
  split; reflexivity.
Defined.

(** ** Timer callbacks *)

(** The page of [Demo.world] on a browser that refuses every assignment
    to [window.location.href]. *)
Definition locked : Page.World :=
  Page.mkWorld
    (Page.mkDoc "complete"
       (Page.querySelector Demo.document)
       (Page.querySelectorAll Demo.document) (Page.card_link Demo.document)
       (Page.dataset_section Demo.document)
       (Page.getAttribute_href Demo.document)
       (Page.closest_card_link Demo.document) None
       150%Q 150%Q 1000%Z 500%Z (fun _ => true))
    (Demo.click 0) []
    (fun _ => "Blog") (fun _ _ => None) (fun _ => [])
    [] Timers.empty "https://qulluq.com/" [] [] []
    None None None.

Section Callbacks.

Import Page.

Variable URL_new : string -> option URL.
Variable CONFIG : Config.t.

(** X17.  When the assignment to [window.location.href] throws, the
    navigation scheduled by an accepted card click (on a page with no
    other timer pending) undoes the loading mark: once the delay has
    elapsed the link shows the text it had before the click again and its
    opacity is ["1"], one error is logged, the location is unchanged and
    no timer is left. *)
Theorem navigation_failure_rolls_back :
  forall (link : Elem) (section : string) (w : World) (dt : nat),
    let targetUrl := lookup (Config.urls CONFIG) section in
    let delay := Z.to_nat (Z.min (Config.navigationDelay CONFIG)
                                 (Config.maxRedirectDelay CONFIG)) in
    let after :=
      App.elapse CONFIG dt
        (snd (App.handleCardClick URL_new CONFIG link section w)) in
    truthy targetUrl = true ->
    Utils.isValidUrl URL_new targetUrl (Config.allowedDomains CONFIG) = true ->
    Timers.pending (timers w) = [] ->
    location_rejects (doc w) (display targetUrl) = true ->
    (delay <= dt)%nat ->
    textContent after link = textContent w link
    /\ style after link "opacity" = Some (Css "1")
    /\ console after = (console w ++ [(Error, "Navigation error:")])%list
    /\ location_href after = location_href w
    /\ Timers.pending (timers after) = [].
Proof.
  intros link section w dt targetUrl delay after Ht Hv Hp Hr Hd.
  subst after. unfold App.handleCardClick. fold targetUrl.
  rewrite Ht, Hv. cbn. rewrite Hp. cbn. fold delay.
  unfold App.elapse. cbn [timers set_timers Timers.pending length App.fire].
  unfold Timers.pop.
  cbn [Timers.pending Timers.earliest Timers.due Timers.clock Timers.id].
  replace (Timers.clock (timers w) + delay <=? Timers.clock (timers w) + dt)%nat
    with true by (symmetry; apply Nat.leb_le; lia).
  cbn [filter Timers.id]. rewrite Nat.eqb_refl.
  cbn [negb Timers.payload App.runCallback].
  unfold App.navigate, bind, get. cbn [doc set_timers set_textContent set_style].
  rewrite Hr. cbn. rewrite Nat.eqb_refl. cbn. repeat split.
Qed.

Lemma existsb_eqb_In (c : string) (l : list string) :
  existsb (String.eqb c) l = true -> In c l.
Proof.
  intros H. apply existsb_exists in H as (x & Hin & Hx).
  apply String.eqb_eq in Hx. now subst.
Qed.

(** What [classList.add] takes without throwing. *)
Definition is_token (c : string) : bool :=
  negb (c =? "") && negb (has_whitespace c).

Lemma classList_add_token (el : Elem) (c : string) (w : World) :
  is_token c = true ->
  classList_add el c w
  = (Ret tt,
     set_classList (fun el' =>
                      if (el' =? el)%nat then
                        if existsb (String.eqb c) (classList w el')
                        then classList w el'
                        else (classList w el' ++ [c])%list
                      else classList w el') w).
Proof.
  unfold is_token, classList_add. intros H.
  apply andb_true_iff in H as [H1 H2].
  apply negb_true_iff in H1, H2. now rewrite H1, H2.
Qed.

Lemma classList_add_throws (el : Elem) (c : string) (w : World) :
  is_token c = false ->
  exists e, classList_add el c w = (Throw e, w).
Proof.
  unfold is_token, classList_add. intros H.
  destruct (c =? ""); [eexists; reflexivity|].
  destruct (has_whitespace c); [eexists; reflexivity|discriminate].
Qed.

(** X18.  After the load event, on a page with no other timer pending
    and for a [loadingDelay] below [2^31], the loading overlay is given
    the hidden class once [loadingDelay] has elapsed and not before, and
    no other element's classes change: this when [CONFIG.classes.hidden]
    is a token.  When it is not (the empty string, or one with
    whitespace) [classList.add] throws in the timer callback and no
    class list changes.  When the page has no loading overlay nothing
    changes at all. *)
Theorem loading_overlay_hidden_after_delay :
  forall (w : World) (dt : nat),
    let delay := Z.to_nat (Config.loadingDelay CONFIG) in
    let token := Config.cls_hidden CONFIG in
    let after := App.elapse CONFIG dt (snd (App.handleWindowLoad CONFIG w)) in
    (Config.loadingDelay CONFIG < Timers.max_delay)%Z ->
    Timers.pending (timers w) = [] ->
    ((dt < delay)%nat -> classList after = classList w)
    /\ ((delay <= dt)%nat ->
        forall el,
          querySelector (doc w) (Config.sel_loading CONFIG) = Matched (Some el) ->
          (is_token token = true ->
           In token (classList after el)
           /\ forall el', el' <> el -> classList after el' = classList w el')
          /\ (is_token token = false -> classList after = classList w))
    /\ (querySelector (doc w) (Config.sel_loading CONFIG) = Matched None ->
        classList after = classList w /\ console after = console w).
Proof.
  intros w dt delay token after _ Hp. subst after.
  unfold App.handleWindowLoad, bind, setTimeout, Timers.setTimeout.
  cbn [snd]. rewrite Hp. cbn [app ret snd]. fold delay.
  unfold App.elapse. cbn [timers set_timers Timers.pending length App.fire].
  unfold Timers.pop.
  cbn [Timers.pending Timers.earliest Timers.due Timers.clock Timers.id].
  destruct (Timers.clock (timers w) + delay <=? Timers.clock (timers w) + dt)%nat
    eqn:Hd.
  - apply Nat.leb_le in Hd.
    cbn [filter Timers.id]. rewrite Nat.eqb_refl.
    cbn [negb Timers.payload App.runCallback].
    split; [lia|]. split.
    + intros _ el Hq. unfold App.hideLoading, bind.
      rewrite (safeQuerySelector_matched _ (Some el)) by exact Hq.
      fold token. split; intros Htok.
      * rewrite (classList_add_token _ _ _ Htok). cbn.
        rewrite Nat.eqb_refl. split.
        -- destruct (existsb _ (classList w el)) eqn:He.
           ++ now apply existsb_eqb_In.
           ++ apply in_or_app. right. now left.
        -- intros el' Hne. apply Nat.eqb_neq in Hne. now rewrite Hne.
      * match goal with
        | |- context [classList_add el token ?W] =>
            destruct (classList_add_throws el token W Htok) as [e He];
            rewrite He
        end.
        reflexivity.
    + intros Hq. unfold App.hideLoading, bind.
      rewrite (safeQuerySelector_matched _ None) by exact Hq.
      split; reflexivity.
  - apply Nat.leb_gt in Hd. split; [reflexivity|]. split; [lia|].
    intros _. split; reflexivity.
Qed.

(** The style the observer's callback leaves, property by property. *)
Lemma onIntersection_style (entries : list (Elem * bool)) :
  forall (w : World) (el : Elem) (prop : string),
    App.onIntersection entries w
    = (Ret tt, snd (App.onIntersection entries w))
    /\ style (snd (App.onIntersection entries w)) el prop
       = if (prop =? "animation")
            && existsb (fun entry => (fst entry =? el)%nat && snd entry) entries
         then Some (Css "fadeInUp 0.8s ease forwards")
         else style w el prop.
Proof.
  unfold App.onIntersection.
  set (f := fun entry : Elem * bool => if snd entry then _ else _).
  induction entries as [|[target hit] entries IH]; intros w el prop.
  - cbn. now rewrite andb_false_r.
  - cbn [forEach existsb fst snd]. unfold bind.
    set (w1 := set_style
                 (fun el' prop' =>
                    if (el' =? target)%nat && (prop' =? "animation")
                    then Some (Css "fadeInUp 0.8s ease forwards")
                    else style w el' prop') w).
    assert (Hf : f (target, hit) w = (Ret tt, if hit then w1 else w))
      by (destruct hit; reflexivity).
    rewrite Hf. destruct hit.
    + destruct (IH w1 el prop) as [Hr Hs].
      split; [exact Hr|]. rewrite Hs. unfold w1. cbn [style set_style].
      rewrite (Nat.eqb_sym target el), andb_true_r.
      destruct (prop =? "animation"), (el =? target)%nat; cbn;
        try reflexivity;
        match goal with
        | |- context [existsb ?g ?l] => destruct (existsb g l)
        end; reflexivity.
    + destruct (IH w el prop) as [Hr Hs].
      split; [exact Hr|]. rewrite Hs. now rewrite andb_false_r.
Qed.

(** X19.  The intersection observer's callback gives the fade-in animation
    to exactly the targets of the entries that are intersecting: their
    [animation] style is set, every other element and every other style
    property is as before, and the callback returns normally. *)
Theorem onIntersection_spec :
  forall (entries : list (Elem * bool)) (w : World) (el : Elem),
    let after := snd (App.onIntersection entries w) in
    App.onIntersection entries w = (Ret tt, after)
    /\ (In (el, true) entries ->
        style after el "animation" = Some (Css "fadeInUp 0.8s ease forwards"))
    /\ (~ In (el, true) entries ->
        style after el "animation" = style w el "animation")
    /\ (forall prop, prop <> "animation" ->
                     style after el prop = style w el prop).
Proof.
  intros entries w el after. subst after.
  split; [apply (onIntersection_style entries w el "")|].
  split; [|split].
  - intros Hin. rewrite (proj2 (onIntersection_style entries w el _)).
    match goal with
    | |- context [existsb ?g ?l] => replace (existsb g l) with true
    end; [reflexivity|].
    symmetry. apply existsb_exists. exists (el, true).
    split; [exact Hin|]. cbn. now rewrite Nat.eqb_refl.
  - intros Hn. rewrite (proj2 (onIntersection_style entries w el _)).
    match goal with
    | |- context [existsb ?g ?l] => destruct (existsb g l) eqn:He
    end; [|reflexivity].
    apply existsb_exists in He as ([t hit] & Hin & Hx). cbn in Hx.
    apply andb_true_iff in Hx as [Ht ->]. apply Nat.eqb_eq in Ht. subst t.
    now elim Hn.
  - intros prop Hp. rewrite (proj2 (onIntersection_style entries w el prop)).
    apply String.eqb_neq in Hp. now rewrite Hp.
Qed.

End Callbacks.

Lemma navigation_failure_rolls_back_witness :
  let after :=
    App.elapse Config.config 500
      (snd (App.handleCardClick Demo.URL_new Config.config 11 "blog" locked)) in
  Page.textContent
    (snd (App.handleCardClick Demo.URL_new Config.config 11 "blog" locked)) 11
  = "載入中..."
  /\ Page.textContent after 11 = "Blog"
  /\ Page.location_href after = "https://qulluq.com/".
Proof.
  split; [reflexivity|].
  destruct (navigation_failure_rolls_back Demo.URL_new Config.config 11 "blog"
              locked 500 eq_refl eq_refl eq_refl eq_refl
              ltac:(repeat constructor))
    as (Ht & _ & _ & Hl & _).
  split; [exact Ht | exact Hl].
Defined.

Lemma loading_overlay_hidden_after_delay_witness :
  Page.classList
    (App.elapse Config.config 999
       (snd (App.handleWindowLoad Config.config Demo.world))) 7 = []
  /\ In "hidden"
       (Page.classList
          (App.elapse Config.config 1000
             (snd (App.handleWindowLoad Config.config Demo.world))) 7).
Proof.
  split.
  - destruct (loading_overlay_hidden_after_delay Config.config Demo.world 999
                eq_refl eq_refl) as (H & _).
    now rewrite (H ltac:(repeat constructor)).
  - destruct (loading_overlay_hidden_after_delay Config.config Demo.world 1000
                eq_refl eq_refl) as (_ & H & _).
    exact (proj1 (proj1 (H ltac:(repeat constructor) 7 eq_refl) eq_refl)).
Defined.

(** The same page after [CONFIG.classes.hidden = ''], which the unfrozen
    section [classes] takes: the callback throws, the overlay stays. *)
Example loading_overlay_stays_without_token :
  exists c' cfg',
    assign Config.CONFIG ["classes"; "hidden"] (VStr "") = Some c'
    /\ Config.read c' = Some cfg'
    /\ App.hideLoading cfg' Demo.world
       = (Page.Throw (Page.DOMException "SyntaxError"), Demo.world)
    /\ Page.classList
         (App.elapse cfg' 1000 (snd (App.handleWindowLoad cfg' Demo.world))) 7
       = [].
Proof. do 2 eexists. repeat split. Qed.

(** ** The debounced scroll handler *)

Section ScrollBursts.

Import Page.

Variable CONFIG : Config.t.

(** The two updates read and write neither the timers nor the variable
    [timeout] of the wrapper. *)
Lemma handleScroll_func_frame (tm : Timers.t Callback) (h : option nat)
      (w : World) :
  App.handleScroll_func CONFIG (set_timers tm (set_handleScroll_timeout h w))
  = (fst (App.handleScroll_func CONFIG w),
     set_timers tm
       (set_handleScroll_timeout h (snd (App.handleScroll_func CONFIG w)))).
Proof.
  unfold_app. unfold bind, get, modify, ret, throw.
  cbn [doc lastScrollTop set_timers set_handleScroll_timeout].
  repeat match goal with
         | |- context [match ?x with _ => _ end] =>
             lazymatch x with
             | context [match _ with _ => _ end] => fail
             | _ => destruct x eqn:?
             end;
             cbn [doc lastScrollTop set_timers set_handleScroll_timeout
                  set_style set_lastScrollTop set_console fst snd]
         end; reflexivity.
Qed.

Lemma scrollLater_run (w : World) :
  snd (App.scrollLater CONFIG w)
  = snd (App.handleScroll_func CONFIG
           (set_timers
              (Timers.clearTimeout (handleScroll_timeout w) (timers w)) w)).
Proof. reflexivity. Qed.

(** One scroll event on a page whose pending timers are at most the one
    the wrapper scheduled last. *)
Lemma handleScroll_rearms (w : World) :
  Timers.pending (timers w) = []
  \/ (exists h due,
        handleScroll_timeout w = Some h
        /\ Timers.pending (timers w) = [Timers.mkTimer h due ScrollLater]) ->
  snd (App.handleScroll w)
  = set_timers
      (Timers.mk (Timers.clock (timers w)) (S (Timers.next_id (timers w)))
         [Timers.mkTimer (Timers.next_id (timers w))
                         (Timers.clock (timers w) + 16) ScrollLater])
      (set_handleScroll_timeout (Some (Timers.next_id (timers w))) w).
Proof.
  intros H.
  assert (Hclr : Timers.clearTimeout (handleScroll_timeout w) (timers w)
                 = Timers.mk (Timers.clock (timers w))
                             (Timers.next_id (timers w)) []).
  { destruct H as [Hp|(h & due & Ht & Hp)].
    - destruct (handleScroll_timeout w); cbn.
      + now rewrite Hp.
      + destruct (timers w); cbn in *; now subst.
    - rewrite Ht. cbn. rewrite Hp. cbn. now rewrite Nat.eqb_refl. }
  unfold App.handleScroll, bind, get, clearTimeout, modify, setTimeout.
  cbn [timers set_timers]. rewrite Hclr. reflexivity.
Qed.

(** [n] scroll events in a row, no time passing between them; a burst
    spread over time is [scrollBurst] below. *)
Fixpoint scrolls (n : nat) (w : World) : World :=
  match n with
  | O => w
  | S n' => snd (App.handleScroll (scrolls n' w))
  end.

(** A burst of scroll events: after a first one, one more at the end of
    each of the gaps, the event loop running the timers that fall due in
    a gap. *)
Fixpoint scrollBurst (gaps : list nat) (w : World) : World :=
  match gaps with
  | [] => w
  | gap :: gaps' =>
      scrollBurst gaps' (snd (App.handleScroll (App.elapse CONFIG gap w)))
  end.

(** The page [w] with nothing changed but the timer table: the time is
    [now], and the one timer pending is the wrapper's, with handle [h],
    set at the time [since]. *)
Definition scrolled (since now h : nat) (w : World) : World :=
  set_timers
    (Timers.mk now (S h) [Timers.mkTimer h (since + 16) ScrollLater])
    (set_handleScroll_timeout (Some h) w).

Lemma handleScroll_scrolled (w : World) :
  Timers.pending (timers w) = [] ->
  snd (App.handleScroll w)
  = scrolled (Timers.clock (timers w)) (Timers.clock (timers w))
             (Timers.next_id (timers w)) w.
Proof. intros Hp. rewrite handleScroll_rearms by now left. reflexivity. Qed.

(** Less than 16 ms after a scroll event nothing has run. *)
Lemma elapse_scrolled_early (since h dt : nat) (w : World) :
  (dt < 16)%nat ->
  App.elapse CONFIG dt (scrolled since since h w)
  = scrolled since (since + dt) h w.
Proof.
  intros Hd. unfold App.elapse, scrolled.
  cbn [timers set_timers Timers.pending length App.fire].
  unfold Timers.pop.
  cbn [Timers.pending Timers.earliest Timers.due Timers.clock Timers.id].
  replace (since + 16 <=? since + dt)%nat with false
    by (symmetry; apply Nat.leb_gt; lia).
  reflexivity.
Qed.

(** A scroll event that comes then moves the wrapper's timer. *)
Lemma handleScroll_again (since now h : nat) (w : World) :
  snd (App.handleScroll (scrolled since now h w)) = scrolled now now (S h) w.
Proof.
  rewrite handleScroll_rearms; [reflexivity|].
  right. do 2 eexists. split; reflexivity.
Qed.

Lemma scrollBurst_scrolled (gaps : list nat) :
  forall (since h : nat) (w : World),
    Forall (fun gap => (gap < 16)%nat) gaps ->
    scrollBurst gaps (scrolled since since h w)
    = scrolled (since + list_sum gaps) (since + list_sum gaps)
               (h + length gaps) w.
Proof.
  induction gaps as [|gap gaps IH]; intros since h w Hg.
  - cbn. now rewrite !Nat.add_0_r.
  - inversion Hg as [|? ? Hgap Hrest]; subst. cbn [scrollBurst].
    rewrite (elapse_scrolled_early _ _ _ _ Hgap), handleScroll_again.
    rewrite (IH _ _ _ Hrest).
    change (list_sum (gap :: gaps)) with (gap + list_sum gaps)%nat.
    cbn [length]. f_equal; lia.
Qed.


End ScrollBursts.


(** ** Timers of different owners *)

Section OtherTimers.

Import Page.

Variable URL_new : string -> option URL.
Variable CONFIG : Config.t.

(** The handles in use are below the next one to be handed out, and the
    handle the scroll wrapper remembers names no timer but its own. *)
Definition handles_ok (w : World) : Prop :=
  (forall x, In x (Timers.pending (timers w)) ->
             (Timers.id x < Timers.next_id (timers w))%nat)
  /\ (forall h x, handleScroll_timeout w = Some h ->
                  In x (Timers.pending (timers w)) ->
                  Timers.id x = h -> Timers.payload x = ScrollLater).

Lemma handleScroll_pending (w : World) :
  Timers.pending (timers (snd (App.handleScroll w)))
  = (Timers.pending (Timers.clearTimeout (handleScroll_timeout w) (timers w))
     ++ [Timers.mkTimer (Timers.next_id (timers w))
                        (Timers.clock (timers w) + 16) ScrollLater])%list
  /\ Timers.next_id (timers (snd (App.handleScroll w)))
     = S (Timers.next_id (timers w))
  /\ handleScroll_timeout (snd (App.handleScroll w))
     = Some (Timers.next_id (timers w)).
Proof.
  unfold App.handleScroll, bind, get, clearTimeout, modify, setTimeout.
  cbn [timers set_timers snd handleScroll_timeout set_handleScroll_timeout].
  destruct (handleScroll_timeout w); cbn; repeat split.
Qed.

Lemma handleScroll_handles_ok (w : World) :
  handles_ok w -> handles_ok (snd (App.handleScroll w)).
Proof.
  intros [Hlt Hown].
  destruct (handleScroll_pending w) as (Hp & Hn & Ht).
  split.
  - intros x Hx. rewrite Hp in Hx. rewrite Hn.
    apply in_app_or in Hx as [Hx|[<-|[]]]; [|cbn; lia].
    assert (In x (Timers.pending (timers w))).
    { destruct (handleScroll_timeout w); cbn in Hx; [|exact Hx].
      now apply filter_In in Hx. }
    specialize (Hlt x H). lia.
  - intros h x Hh Hx Hid. rewrite Ht in Hh. injection Hh as <-.
    rewrite Hp in Hx. apply in_app_or in Hx as [Hx|[<-|[]]]; [|reflexivity].
    assert (In x (Timers.pending (timers w))).
    { destruct (handleScroll_timeout w); cbn in Hx; [|exact Hx].
      now apply filter_In in Hx. }
    specialize (Hlt x H). lia.
Qed.

Lemma handleScroll_keeps_other (w : World) (x : Timers.timer Callback) :
  handles_ok w ->
  In x (Timers.pending (timers w)) ->
  Timers.payload x <> ScrollLater ->
  In x (Timers.pending (timers (snd (App.handleScroll w)))).
Proof.
  intros [Hlt Hown] Hx Hpay.
  destruct (handleScroll_pending w) as (Hp & _ & _). rewrite Hp.
  apply in_or_app. left.
  destruct (handleScroll_timeout w) as [h|] eqn:Ht; cbn; [|exact Hx].
  apply filter_In. split; [exact Hx|].
  apply negb_true_iff, Nat.eqb_neq. intros Hid.
  apply Hpay. now apply (Hown h x).
Qed.

(** X21.  Scroll events cancel no timer but the scroll wrapper's own: on
    a page whose timer handles are in order, a pending navigation or
    loading timer is still pending after any number of scroll events. *)
Theorem scrolling_keeps_other_timers :
  forall (n : nat) (w : World) (x : Timers.timer Callback),
    handles_ok w ->
    In x (Timers.pending (timers w)) ->
    Timers.payload x <> ScrollLater ->
    handles_ok (scrolls n w)
    /\ In x (Timers.pending (timers (scrolls n w))).
Proof.
  induction n as [|n IH]; intros w x Hok Hx Hpay; [now split|].
  destruct (IH w x Hok Hx Hpay) as [Hok' Hx']. cbn [scrolls]. split.
  - now apply handleScroll_handles_ok.
  - now apply handleScroll_keeps_other.
Qed.

Lemma pop_first_of_two {P : Type} (limit c n : nat) (x y : Timers.timer P) :
  (Timers.due x <= limit)%nat ->
  (Timers.due x <= Timers.due y)%nat ->
  Timers.id x <> Timers.id y ->
  Timers.pop limit (Timers.mk c n [x; y])
  = Some (x, Timers.mk (Nat.max c (Timers.due x)) n [y]).
Proof.
  intros Hl Hxy Hid. unfold Timers.pop.
  cbn [Timers.pending Timers.earliest Timers.clock Timers.next_id].
  apply Nat.leb_le in Hl. apply Nat.leb_le in Hxy. rewrite Hl.
  destruct (Timers.due y <=? limit)%nat; cbn [andb]; rewrite ?Hxy;
    cbn [filter]; rewrite Nat.eqb_refl;
    replace (Timers.id y =? Timers.id x)%nat with false
      by (symmetry; apply Nat.eqb_neq; congruence);
    reflexivity.
Qed.

Lemma pop_only {P : Type} (limit c n : nat) (x : Timers.timer P) :
  (Timers.due x <= limit)%nat ->
  Timers.pop limit (Timers.mk c n [x])
  = Some (x, Timers.mk (Nat.max c (Timers.due x)) n []).
Proof.
  intros Hl. unfold Timers.pop.
  cbn [Timers.pending Timers.earliest Timers.clock Timers.next_id].
  apply Nat.leb_le in Hl. rewrite Hl. cbn [filter].
  now rewrite Nat.eqb_refl.
Qed.

Lemma pop_not_due {P : Type} (limit c n : nat) (x : Timers.timer P) :
  (limit < Timers.due x)%nat ->
  Timers.pop limit (Timers.mk c n [x]) = None.
Proof.
  intros Hl. unfold Timers.pop.
  cbn [Timers.pending Timers.earliest].
  apply Nat.leb_gt in Hl. now rewrite Hl.
Qed.

Lemma navigate_rejected (u : value) (link : Elem) (text : string) (w : World) :
  location_rejects (doc w) (display u) = true ->
  snd (App.navigate u link text w)
  = set_textContent
      (fun el' => if (el' =? link)%nat then text else textContent w el')
      (set_style
         (fun el' prop' =>
            if (el' =? link)%nat && (prop' =? "opacity")
            then Some (Css "1") else style w el' prop')
         (log Error "Navigation error:" w)).
Proof.
  intros Hr. unfold App.navigate, bind, get. cbv iota beta. rewrite Hr.
  reflexivity.
Qed.

(** X22.  [handleCardClick] has no guard against a second click.  Take
    two accepted clicks on the same link, the second any time before the
    navigation of the first is due, on a page with no other timer
    pending: two navigations are then pending, and the text the second one
    has saved for a rollback is the loading label, not the link's own
    text.  If the assignment to the location then throws both times, the
    link is left showing the loading label.  A second click that comes
    when the first navigation has been rolled back saves the link's own
    text again. *)
Theorem double_click_schedules_twice :
  forall (link : Elem) (section : string) (w : World) (gap dt : nat),
    let targetUrl := lookup (Config.urls CONFIG) section in
    let delay := Z.to_nat (Z.min (Config.navigationDelay CONFIG)
                                 (Config.maxRedirectDelay CONFIG)) in
    let click := fun w =>
      snd (App.handleCardClick URL_new CONFIG link section w) in
    let twice := click (App.elapse CONFIG gap (click w)) in
    truthy targetUrl = true ->
    Utils.isValidUrl URL_new targetUrl (Config.allowedDomains CONFIG) = true ->
    Timers.pending (timers w) = [] ->
    ((gap < delay)%nat ->
     map (@Timers.payload _) (Timers.pending (timers twice))
     = [ Navigate targetUrl link (textContent w link);
         Navigate targetUrl link "載入中..." ]
     /\ (location_rejects (doc w) (display targetUrl) = true ->
         (delay <= dt)%nat ->
         textContent (App.elapse CONFIG dt twice) link = "載入中..."))
    /\ ((delay <= gap)%nat ->
        location_rejects (doc w) (display targetUrl) = true ->
        map (@Timers.payload _) (Timers.pending (timers twice))
        = [ Navigate targetUrl link (textContent w link) ]).
Proof.
  intros link section w gap dt targetUrl delay click twice Ht Hv Hp.
  assert (Hclick : forall w0,
             click w0
             = set_timers
                 (snd (Timers.setTimeout
                         (Navigate targetUrl link (textContent w0 link))
                         delay (timers w0)))
                 (set_textContent
                    (fun el' => if (el' =? link)%nat then "載入中..."
                                else textContent w0 el')
                    (set_style
                       (fun el' prop' =>
                          if (el' =? link)%nat && (prop' =? "opacity")
                          then Some (Css "0.7") else style w0 el' prop')
                       w0))).
  { intros w0. unfold click, App.handleCardClick. fold targetUrl.
    rewrite Ht, Hv. reflexivity. }
  clearbody click.
  set (first := Timers.mkTimer (Timers.next_id (timers w))
                  (Timers.clock (timers w) + delay)%nat
                  (Navigate targetUrl link (textContent w link))).
  set (marked := set_textContent
                    (fun el' => if (el' =? link)%nat then "載入中..."
                                else textContent w el')
                    (set_style
                       (fun el' prop' =>
                          if (el' =? link)%nat && (prop' =? "opacity")
                          then Some (Css "0.7") else style w el' prop')
                       w)).
  assert (H1 : click w
               = set_timers (Timers.mk (Timers.clock (timers w))
                                       (S (Timers.next_id (timers w))) [first])
                            marked).
  { rewrite Hclick. unfold Timers.setTimeout. rewrite Hp. reflexivity. }
  split.
  - intros Hgap.
    assert (H2 : App.elapse CONFIG gap (click w)
                 = set_timers (Timers.mk (Timers.clock (timers w) + gap)
                                         (S (Timers.next_id (timers w))) [first])
                              marked).
    { rewrite H1. unfold App.elapse.
      cbn [timers set_timers Timers.pending length App.fire].
      rewrite pop_not_due by (cbn; lia). reflexivity. }
    assert (Htext : forall tm,
               textContent (set_timers tm marked) link = "載入中...").
    { intros tm. unfold marked. cbn. now rewrite Nat.eqb_refl. }
    subst twice. rewrite H2, Hclick, Htext.
    cbn [timers set_timers Timers.setTimeout snd Timers.pending Timers.clock
         Timers.next_id app map].
    split; [reflexivity|].
    intros Hr Hd. unfold first, marked.
    unfold App.elapse.
    cbn [timers set_timers Timers.pending Timers.clock app length App.fire].
    rewrite pop_first_of_two by (cbn; lia).
    cbn [Timers.payload App.runCallback Timers.due].
    rewrite navigate_rejected by exact Hr.
    cbn [timers set_timers set_textContent set_style log set_console].
    rewrite pop_only by (cbn; lia).
    cbn [Timers.payload App.runCallback Timers.due].
    rewrite navigate_rejected by exact Hr.
    cbn. now rewrite Nat.eqb_refl.
  - intros Hgap Hr.
    assert (H2 : Timers.pending (timers (App.elapse CONFIG gap (click w))) = []
                 /\ textContent (App.elapse CONFIG gap (click w)) link
                    = textContent w link).
    { rewrite H1. unfold first, marked, App.elapse.
      cbn [timers set_timers Timers.pending length App.fire].
      rewrite pop_only by (cbn; lia).
      cbn [Timers.payload App.runCallback Timers.due].
      rewrite navigate_rejected by exact Hr.
      cbn. now rewrite Nat.eqb_refl. }
    destruct H2 as [Hnone Htext].
    subst twice. rewrite Hclick.
    cbn [timers set_timers Timers.setTimeout snd Timers.pending].
    now rewrite Hnone, Htext.
Qed.

End OtherTimers.

Lemma scrolling_keeps_other_timers_witness :
  let clicked :=
    snd (App.handleCardClick Demo.URL_new Config.config 11 "blog" Demo.world) in
  map (@Timers.payload _)
      (Timers.pending (Page.timers (scrolls 3 clicked)))
  = [Page.Navigate (VStr "https://blog.qulluq.com/") 11 "Blog";
     Page.ScrollLater]
  /\ In (Timers.mkTimer 1 500 (Page.Navigate (VStr "https://blog.qulluq.com/")
                                             11 "Blog"))
        (Timers.pending (Page.timers (scrolls 3 clicked))).
Proof.
  split; [reflexivity|].
  apply (scrolling_keeps_other_timers 3).
  - split.
    + intros x [<-|[]]. repeat constructor.
    + intros h x Hh. discriminate Hh.
  - now left.
  - discriminate.
Defined.

(** Two clicks 200 ms apart on the page that refuses the navigation: the
    link keeps the loading label for good. *)
Lemma double_click_schedules_twice_witness :
  Page.textContent
    (App.elapse Config.config 500
       (snd (App.handleCardClick Demo.URL_new Config.config 11 "blog"
          (App.elapse Config.config 200
             (snd (App.handleCardClick Demo.URL_new Config.config 11 "blog"
                                       locked)))))) 11
  = "載入中...".
Proof.
  exact (proj2 (proj1 (double_click_schedules_twice Demo.URL_new Config.config
                         11 "blog" locked 200 500 eq_refl eq_refl eq_refl)
                      ltac:(repeat constructor))
               eq_refl ltac:(repeat constructor)).
Defined.
